(** * Text-to-PPT: the sanitizer, the paginator and the deck assembler of [app.py]

    A shallow embedding of [clean_text], [split_content_into_slides] and
    [create_presentation], together with the part of the python-pptx object
    model and of [os.path] those functions drive.

    Conventions.
    - A Python [str] is a [list ascii]; a character is a code point below 256.
    - [str.upper] is not closed on that range, so it is a section variable.
    - The presentation is a store of slides; slides, shapes and paragraphs
      are referred to by their position in it, so that two access paths to
      the same paragraph see one another's writes.  The objects behave as
      in python-pptx 1.0 with its default template; the text of a paragraph
      is what [paragraph.text] reads back, control characters spelled as
      python-pptx stores them.
    - [os.path] is the POSIX flavour. *)

From Stdlib Require Import String Ascii List ZArith Lia Bool Arith.
Import ListNotations.
Open Scope list_scope.

(** ** Python strings *)

Definition str := list ascii.

Definition lit (s : string) : str := list_ascii_of_string s.

Definition nl : ascii := ascii_of_nat 10.
Definition star : ascii := "*".

Module Str.

(** [s.split(sep)] for a one-character separator: never an empty list. *)
Fixpoint split (sep : ascii) (s : str) : list str :=
  match s with
  | [] => [[]]
  | c :: t =>
      if (c =? sep)%char then [] :: split sep t
      else match split sep t with
           | h :: r => (c :: h) :: r
           | [] => [[c]]
           end
  end.

(** [sep.join(l)] *)
Fixpoint join (sep : str) (l : list str) : str :=
  match l with
  | [] => []
  | x :: r => match r with
              | [] => x
              | _ :: _ => x ++ sep ++ join sep r
              end
  end.

(** [s.replace(old, new)] for one-character [old] and [new]. *)
Definition replace (old new : ascii) (s : str) : str :=
  map (fun c => if (c =? old)%char then new else c) s.

(** [str.isspace] on one code point below 256. *)
Definition isspace (c : ascii) : bool :=
  let n := nat_of_ascii c in
  ((9 <=? n) && (n <=? 13) || (28 <=? n) && (n <=? 32)
   || (n =? 133) || (n =? 160))%nat.

Fixpoint lstrip (s : str) : str :=
  match s with
  | [] => []
  | c :: t => if isspace c then lstrip t else s
  end.

Definition rstrip (s : str) : str := rev (lstrip (rev s)).

(** [s.strip()] *)
Definition strip (s : str) : str := rstrip (lstrip s).

(** Truth value of a string: non-empty. *)
Definition truthy (s : str) : bool :=
  match s with [] => false | _ :: _ => true end.

End Str.

(** ** [re.sub(r'\*\*(.*?)\*\*', r'\1', text)] *)

Module Re.

(** The sub-pattern [\*\*] at the head of [s]: the text after it. *)
Definition marker (s : str) : option str :=
  match s with
  | c1 :: c2 :: rest =>
      if (c1 =? star)%char && (c2 =? star)%char then Some rest else None
  | _ => None
  end.

(** [(.*?)\*\*]: the lazy group first tries to stop, and only when the
    closing marker is not here does it take one more character; [.]
    refuses the newline, and a refusal leaves nothing to backtrack to.
    Returns group 1 and the text after the match. *)
Fixpoint lazy_group (s : str) : option (str * str) :=
  match marker s with
  | Some rest => Some ([], rest)
  | None =>
      match s with
      | [] => None
      | c :: t =>
          if (c =? nl)%char then None
          else match lazy_group t with
               | Some (g, rest) => Some (c :: g, rest)
               | None => None
               end
      end
  end.

(** The whole pattern anchored at the head of [s]. *)
Definition match_here (s : str) : option (str * str) :=
  match marker s with
  | Some r => lazy_group r
  | None => None
  end.

(** [re.sub] with replacement [\1]: scan from the left; where the pattern
    matches, emit group 1 and resume after the match, otherwise copy one
    character.  The pattern never matches the empty string, so every
    round consumes input and [length s] rounds are enough. *)
Fixpoint sub (fuel : nat) (s : str) : str :=
  match fuel with
  | O => []
  | S fuel' =>
      match s with
      | [] => []
      | c :: t =>
          match match_here s with
          | Some (g, rest) => g ++ sub fuel' rest
          | None => c :: sub fuel' t
          end
      end
  end.

End Re.

(** ** [app.py] *)

Definition clean_text (text : str) : str := Re.sub (length text) text.

(** Declared by [app.py] and never read. *)
Definition MAX_SLIDE_CONTENT_LENGTH : nat := 400.

Definition MAX_BULLETS_PER_SLIDE : nat := 6.

(** One round of the [for para in paragraphs] loop; the loop state is
    [(slides, current_slide)]. *)
Definition paginate_step (st : list str * list str) (para : str)
  : list str * list str :=
  let para := clean_text para in
  let '(slides, current_slide) := st in
  if length current_slide <? MAX_BULLETS_PER_SLIDE
  then (slides, current_slide ++ [para])
  else (slides ++ [Str.join [nl] current_slide], [para]).

Definition split_content_into_slides (content : str) : list str :=
  let paragraphs := Str.split nl content in
  let '(slides, current_slide) := fold_left paginate_step paragraphs ([], []) in
  match current_slide with
  | [] => slides
  | _ :: _ => slides ++ [Str.join [nl] current_slide]
  end.

(** ** The python-pptx objects the assembler touches *)

Fixpoint list_set {A : Type} (i : nat) (x : A) (l : list A) : list A :=
  match l with
  | [] => []
  | h :: t => match i with
              | O => x :: t
              | S j => h :: list_set j x t
              end
  end.

Module Pptx.

(** Lengths are English Metric Units; [Pt] converts from points. *)
Definition Length := Z.
Definition Pt (points : Z) : Length := (points * 12700)%Z.

Inductive PP_ALIGN := LEFT | CENTER | RIGHT | JUSTIFY.

Record Font := { size : option Length; bold : option bool }.

Record Paragraph := {
  text : str;
  font : Font;
  space_after : option Length;
  level : nat;
  alignment : option PP_ALIGN }.

Definition empty_paragraph : Paragraph :=
  {| text := []; font := {| size := None; bold := None |};
     space_after := None; level := 0; alignment := None |}.

Inductive PlaceholderType := CENTER_TITLE | SUBTITLE | TITLE | OBJECT.

(** A placeholder shape: its [idx], its type and its text frame (the
    paragraphs), if it has one. *)
Record Shape := {
  ph_idx : nat;
  ph_type : PlaceholderType;
  text_frame : option (list Paragraph) }.

(** A slide layout is the list of placeholders a new slide clones.
    [slide_layouts] holds the two layouts of the default template that
    [app.py] asks for: "Title Slide" and "Title and Content". *)
Record Layout := {
  layout_name : string;
  layout_placeholders : list (nat * PlaceholderType) }.

Definition title_slide_layout : Layout :=
  {| layout_name := "Title Slide";
     layout_placeholders := [(0, CENTER_TITLE); (1, SUBTITLE)] |}.

Definition title_and_content_layout : Layout :=
  {| layout_name := "Title and Content";
     layout_placeholders := [(0, TITLE); (1, OBJECT)] |}.

Definition slide_layouts : list Layout :=
  [title_slide_layout; title_and_content_layout].

Record Slide := { slide_layout : Layout; shapes : list Shape }.

(** [prs.slides] *)
Definition Presentation := list Slide.

(** A cloned placeholder starts with one empty paragraph. *)
Definition new_placeholder (ph : nat * PlaceholderType) : Shape :=
  {| ph_idx := fst ph; ph_type := snd ph;
     text_frame := Some [empty_paragraph] |}.

Definition new_slide (layout : Layout) : Slide :=
  {| slide_layout := layout;
     shapes := map new_placeholder (layout_placeholders layout) |}.

(** *** Computations on the presentation: state, and [None] for a raise *)

Definition M (A : Type) : Type := Presentation -> option (A * Presentation).

Definition ret {A} (a : A) : M A := fun prs => Some (a, prs).

Definition raise {A} : M A := fun _ => None.

Definition bind {A B} (m : M A) (k : A -> M B) : M B :=
  fun prs => match m prs with
             | Some (a, prs') => k a prs'
             | None => None
             end.

Definition of_option {A} (o : option A) : M A :=
  match o with Some a => ret a | None => raise end.

Declare Scope pptx_scope.
Delimit Scope pptx_scope with pptx.
Notation "x <- m ;; k" := (bind m (fun x => k))
  (at level 61, m at next level, right associativity) : pptx_scope.
Notation "m ;; k" := (bind m (fun _ => k))
  (at level 61, right associativity) : pptx_scope.
Local Open Scope pptx_scope.

(** [for x in l: body x] *)
Fixpoint for_each {A} (l : list A) (body : A -> M unit) : M unit :=
  match l with
  | [] => ret tt
  | x :: r => body x ;; for_each r body
  end.

(** A [for] loop that also updates a local variable of type [S]. *)
Fixpoint for_fold {A S} (l : list A) (s : S) (body : S -> A -> M S) : M S :=
  match l with
  | [] => ret s
  | x :: r => s' <- body s x ;; for_fold r s' body
  end.

(** *** References into the store

    A slide is named by its position in [prs.slides], a shape by its
    position among the slide's shapes, a paragraph by its position in the
    text frame.  [app.py] uses every paragraph reference before the text
    frame it points into is restructured. *)

Definition SlideRef := nat.
Record ShapeRef := { sh_slide : SlideRef; sh_pos : nat }.
Record ParaRef := { pa_shape : ShapeRef; pa_pos : nat }.

Definition on_nth {A R} (i : nat) (f : A -> option (R * A)) (l : list A)
  : option (R * list A) :=
  match nth_error l i with
  | Some x => match f x with
              | Some (r, x') => Some (r, list_set i x' l)
              | None => None
              end
  | None => None
  end.

Definition with_slide {R} (s : SlideRef) (f : Slide -> option (R * Slide))
  : M R := on_nth s f.

Definition with_shape {R} (sh : ShapeRef) (f : Shape -> option (R * Shape))
  : M R :=
  with_slide (sh_slide sh) (fun sl =>
    match on_nth (sh_pos sh) f (shapes sl) with
    | Some (r, shs) => Some (r, {| slide_layout := slide_layout sl; shapes := shs |})
    | None => None
    end).

Definition with_text_frame {R} (sh : ShapeRef)
    (f : list Paragraph -> option (R * list Paragraph)) : M R :=
  with_shape sh (fun s =>
    match text_frame s with
    | Some ps => match f ps with
                 | Some (r, ps') =>
                     Some (r, {| ph_idx := ph_idx s; ph_type := ph_type s;
                                 text_frame := Some ps' |})
                 | None => None
                 end
    | None => None
    end).

Definition with_paragraph {R} (p : ParaRef)
    (f : Paragraph -> option (R * Paragraph)) : M R :=
  with_text_frame (pa_shape p) (on_nth (pa_pos p) f).

Definition update {A} (f : A -> A) (a : A) : option (unit * A) :=
  Some (tt, f a).

Definition read {A R} (f : A -> R) (a : A) : option (R * A) :=
  Some (f a, a).

(** *** The API *)

(** [prs.slide_layouts[i]] *)
Definition slide_layouts_getitem (i : nat) : M Layout :=
  of_option (nth_error slide_layouts i).

(** [prs.slides.add_slide(layout)] *)
Definition add_slide (layout : Layout) : M SlideRef :=
  fun prs => Some (length prs, prs ++ [new_slide layout]).

Fixpoint find_idx (idx : nat) (pos : nat) (l : list Shape) : option nat :=
  match l with
  | [] => None
  | s :: r => if ph_idx s =? idx then Some pos else find_idx idx (S pos) r
  end.

(** [slide.shapes.placeholders[idx]]: the placeholder whose [idx] it is,
    [KeyError] when there is none. *)
Definition placeholders_getitem (s : SlideRef) (idx : nat) : M ShapeRef :=
  with_slide s (fun sl =>
    match find_idx idx 0 (shapes sl) with
    | Some pos => Some ({| sh_slide := s; sh_pos := pos |}, sl)
    | None => None
    end).

(** [slide.shapes.title], dereferenced at once by every caller: the
    placeholder of [idx] 0. *)
Definition shapes_title (s : SlideRef) : M ShapeRef :=
  placeholders_getitem s 0.

(** [slide.shapes], as iterated by [for shape in slide.shapes]. *)
Definition shapes_iter (s : SlideRef) : M (list ShapeRef) :=
  with_slide s (read (fun sl =>
    map (fun pos => {| sh_slide := s; sh_pos := pos |})
        (seq 0 (length (shapes sl))))).

(** [shape.has_text_frame] *)
Definition has_text_frame (sh : ShapeRef) : M bool :=
  with_shape sh (read (fun s =>
    match text_frame s with Some _ => true | None => false end)).

(** How python-pptx stores the text of a run, and reads it back: every
    control character but the tab, the newline and the vertical tab is
    spelled [_xHHHH_], its code in four upper-case hexadecimal digits. *)
Definition is_ctrl (c : ascii) : bool :=
  let n := nat_of_ascii c in
  ((n <=? 8) || (12 <=? n) && (n <=? 31))%nat.

Definition hex_digit (n : nat) : ascii := nth n (lit "0123456789ABCDEF") "0"%char.

Definition escape_char (c : ascii) : str :=
  if is_ctrl c then
    let n := nat_of_ascii c in
    lit "_x00" ++ [hex_digit (n / 16); hex_digit (n mod 16)] ++ lit "_"
  else [c].

Definition escape_ctrl (s : str) : str := flat_map escape_char s.

Definition paragraph_of_line (line : str) : Paragraph :=
  {| text := escape_ctrl line; font := font empty_paragraph;
     space_after := None; level := 0; alignment := None |}.

(** [shape.text = s]: the text frame is emptied and gets one new
    paragraph per line of [s]. *)
Definition set_shape_text (sh : ShapeRef) (s : str) : M unit :=
  with_text_frame sh (update (fun _ => map paragraph_of_line (Str.split nl s))).

(** [shape.text]: the paragraphs' texts joined by newlines. *)
Definition text_of (ps : list Paragraph) : str :=
  Str.join [nl] (map text ps).

(** [text_frame.paragraphs], as iterated by a [for]. *)
Definition paragraphs_iter (sh : ShapeRef) : M (list ParaRef) :=
  with_text_frame sh (read (fun ps =>
    map (fun pos => {| pa_shape := sh; pa_pos := pos |})
        (seq 0 (length ps)))).

(** [text_frame.paragraphs[i]], [IndexError] past the end. *)
Definition paragraphs_getitem (sh : ShapeRef) (i : nat) : M ParaRef :=
  with_text_frame sh (fun ps =>
    if i <? length ps then Some ({| pa_shape := sh; pa_pos := i |}, ps)
    else None).

Definition with_text (t : str) (p : Paragraph) : Paragraph :=
  {| text := t; font := font p; space_after := space_after p;
     level := level p; alignment := alignment p |}.

Definition with_font (f : Font) (p : Paragraph) : Paragraph :=
  {| text := text p; font := f; space_after := space_after p;
     level := level p; alignment := alignment p |}.

Definition with_size (sz : Length) (p : Paragraph) : Paragraph :=
  with_font {| size := Some sz; bold := bold (font p) |} p.

Definition with_bold (b : bool) (p : Paragraph) : Paragraph :=
  with_font {| size := size (font p); bold := Some b |} p.

Definition with_space_after (l : Length) (p : Paragraph) : Paragraph :=
  {| text := text p; font := font p; space_after := Some l;
     level := level p; alignment := alignment p |}.

Definition with_level (n : nat) (p : Paragraph) : Paragraph :=
  {| text := text p; font := font p; space_after := space_after p;
     level := n; alignment := alignment p |}.

Definition with_alignment (a : PP_ALIGN) (p : Paragraph) : Paragraph :=
  {| text := text p; font := font p; space_after := space_after p;
     level := level p; alignment := Some a |}.

(** [text_frame.clear()]: every paragraph but the first is removed, and
    the first loses its text and keeps its properties. *)
Definition text_frame_clear (sh : ShapeRef) : M unit :=
  with_text_frame sh (fun ps =>
    match ps with
    | p :: _ => Some (tt, [with_text [] p])
    | [] => None
    end).

(** [text_frame.add_paragraph()] *)
Definition add_paragraph (sh : ShapeRef) : M ParaRef :=
  with_text_frame sh (fun ps =>
    Some ({| pa_shape := sh; pa_pos := length ps |}, ps ++ [empty_paragraph])).

(** [p.text = t], [p.space_after = l], [p.level = n], [p.alignment = a],
    [p.font.size = sz], [p.font.bold = b] *)
Definition set_text (p : ParaRef) (t : str) : M unit :=
  with_paragraph p (update (with_text (escape_ctrl t))).
Definition set_space_after (p : ParaRef) (l : Length) : M unit :=
  with_paragraph p (update (with_space_after l)).
Definition set_level (p : ParaRef) (n : nat) : M unit :=
  with_paragraph p (update (with_level n)).
Definition set_alignment (p : ParaRef) (a : PP_ALIGN) : M unit :=
  with_paragraph p (update (with_alignment a)).
Definition set_font_size (p : ParaRef) (sz : Length) : M unit :=
  with_paragraph p (update (with_size sz)).
Definition set_font_bold (p : ParaRef) (b : bool) : M unit :=
  with_paragraph p (update (with_bold b)).

End Pptx.

(** ** [os.path] and the file-system requests *)

Module OsPath.

Definition sep : ascii := "/".

Definition startswith_sep (s : str) : bool :=
  match s with
  | c :: _ => (c =? sep)%char
  | [] => false
  end.

Definition endswith_sep (s : str) : bool := startswith_sep (rev s).

(** [os.path.join(a, b)]: an absolute [b] discards [a]. *)
Definition join (a b : str) : str :=
  if startswith_sep b then b
  else if negb (Str.truthy a) || endswith_sep a then a ++ b
  else a ++ [sep] ++ b.

End OsPath.

(** What the script asks of the file system: [create_presentation] the
    first two, in order, [get_ppt_download_link] the third. *)
Inductive Effect :=
| Makedirs (name : str) (exist_ok : bool)
| Save (deck : Pptx.Presentation) (file : str)
| Read (file : str).

(** ** [create_presentation] *)

Import Pptx.
Local Open Scope pptx_scope.

Definition TITLE_FONT_SIZE : Length := Pt 30.
Definition SLIDE_FONT_SIZE : Length := Pt 16.

Definition zip {A B} (l : list A) (l' : list B) : list (A * B) := combine l l'.

Definition enumerate {A} (l : list A) : list (nat * A) :=
  combine (seq 0 (length l)) l.

(** Body of [for bullet in content.split("\n")]. *)
Definition add_bullet (text_frame : ShapeRef) (bullet : str) : M unit :=
  if Str.truthy (Str.strip bullet) then
    p <- add_paragraph text_frame ;;
    set_text p (Str.strip bullet) ;;
    set_space_after p (Pt 8) ;;
    set_level p 0 ;;
    set_alignment p LEFT
  else ret tt.

(** [for shape in slide.shapes: if shape.has_text_frame:
       for paragraph in shape.text_frame.paragraphs:
         paragraph.font.size = SLIDE_FONT_SIZE] *)
Definition resize_paragraphs (slide : SlideRef) : M unit :=
  all_shapes <- shapes_iter slide ;;
  for_each all_shapes (fun shape =>
    has <- has_text_frame shape ;;
    if has : bool then
      paragraphs <- paragraphs_iter shape ;;
      for_each paragraphs (fun paragraph =>
        set_font_size paragraph SLIDE_FONT_SIZE)
    else ret tt).

(** Body of [for index, content in enumerate(content_slides)]; the loop
    variable it updates is [first_slide]. *)
Definition add_content_slide (content_slide_layout : Layout)
    (slide_title : str) (first_slide : bool) (ic : nat * str) : M bool :=
  let '(index, content) := ic in
  slide <- add_slide content_slide_layout ;;
  title <- shapes_title slide ;;
  set_shape_text title
    (if first_slide then slide_title else slide_title ++ lit " (contd.)") ;;
  text_frame <- placeholders_getitem slide 1 ;;
  text_frame_clear text_frame ;;
  for_each (Str.split nl content) (add_bullet text_frame) ;;
  title <- shapes_title slide ;;
  p0 <- paragraphs_getitem title 0 ;;
  set_font_size p0 TITLE_FONT_SIZE ;;
  resize_paragraphs slide ;;
  ret false.

(** Body of [for slide_title, slide_content in zip(...)]. *)
Definition add_section (content_slide_layout : Layout) (tc : str * str)
  : M unit :=
  let '(slide_title, slide_content) := tc in
  let content_slides := split_content_into_slides slide_content in
  for_fold (enumerate content_slides) true
    (add_content_slide content_slide_layout slide_title) ;;
  ret tt.

Section Assembler.

(** [str.upper] *)
Variable upper : str -> str.

(** The statements of [create_presentation] that build the deck. *)
Definition assemble (topic : str) (slide_titles slide_contents : list str)
  : M unit :=
  title_slide_layout <- slide_layouts_getitem 0 ;;
  content_slide_layout <- slide_layouts_getitem 1 ;;
  title_slide <- add_slide title_slide_layout ;;
  title <- shapes_title title_slide ;;
  set_shape_text title (upper topic) ;;
  title <- shapes_title title_slide ;;
  p0 <- paragraphs_getitem title 0 ;;
  set_font_bold p0 true ;;
  for_each (zip slide_titles slide_contents) (add_section content_slide_layout).

(** [create_presentation] on a fresh [pptx.Presentation()], which has no
    slide: the returned file name and the file-system requests, or
    [None] if a statement raises. *)
Definition create_presentation (topic : str)
    (slide_titles slide_contents : list str) : option (str * list Effect) :=
  match assemble topic slide_titles slide_contents [] with
  | Some (_, prs) =>
      let output_dir := lit "generated_ppt" in
      let ppt_filename :=
        OsPath.join output_dir
          (Str.replace " " "_" topic ++ lit "_presentation.pptx") in
      Some (ppt_filename, [Makedirs output_dir true; Save prs ppt_filename])
  | None => None
  end.

End Assembler.

(** ASCII letters only; used to run the model on examples. *)
Definition ascii_upper (s : str) : str :=
  map (fun c => let n := nat_of_ascii c in
                if ((97 <=? n) && (n <=? 122))%nat then ascii_of_nat (n - 32)
                else c) s.

(** ** The rest of [app.py]: the model calls, the download link and [main] *)

(** [os.path.basename(p)]: what follows the last slash. *)
Definition basename (p : str) : str :=
  fold_left (fun acc c => if (c =? OsPath.sep)%char then [] else acc ++ [c]) p [].

Module Base64.

Definition alphabet : str :=
  lit "ABCDEFGHIJKLMNOPQRSTUVWXYZabcdefghijklmnopqrstuvwxyz0123456789+/".

Definition pad : ascii := "=".

(** The character of a 6-bit value. *)
Definition digit (n : nat) : ascii := nth n alphabet pad.

(** [base64.b64encode(data).decode()]: three bytes give four characters,
    and a last group of one or two bytes is padded. *)
Fixpoint b64encode (data : list ascii) : str :=
  match data with
  | [] => []
  | a :: t1 =>
      let x := nat_of_ascii a in
      match t1 with
      | [] => [digit (x / 4); digit (x mod 4 * 16); pad; pad]
      | b :: t2 =>
          let y := nat_of_ascii b in
          match t2 with
          | [] => [digit (x / 4); digit (x mod 4 * 16 + y / 16);
                   digit (y mod 16 * 4); pad]
          | c :: rest =>
              let z := nat_of_ascii c in
              digit (x / 4) :: digit (x mod 4 * 16 + y / 16)
              :: digit (y mod 16 * 4 + z / 64) :: digit (z mod 64)
              :: b64encode rest
          end
      end
  end.

End Base64.

(** The prompts, as the f-strings build them. *)
Definition titles_prompt (topic : str) : str :=
  lit "Generate 10 detailed subtopics for the topic '" ++ topic
  ++ lit "'. Each subtopic should be clear and concise, without numbering or extra symbols.".

Definition content_prompt (slide_title : str) : str :=
  lit "Generate detailed bullet points for the slide '" ++ slide_title
  ++ lit "'. Each point should have a bold title followed by a brief explanation. Avoid using asterisks or extra symbols.".

(** [[title.strip() for title in text.strip().split("\n") if title.strip()]] *)
Definition parse_titles (text : str) : list str :=
  map Str.strip
      (filter (fun title => Str.truthy (Str.strip title))
              (Str.split nl (Str.strip text))).

Definition dquote : ascii := ascii_of_nat 34.

(** The anchor [get_ppt_download_link] returns, from the encoded file and
    the name to download it under. *)
Definition download_anchor (b64_ppt name : str) : str :=
  lit "<a href=" ++ [dquote]
  ++ lit "data:application/vnd.openxmlformats-officedocument.presentationml.presentation;base64,"
  ++ b64_ppt ++ [dquote] ++ lit " download=" ++ [dquote] ++ name ++ [dquote]
  ++ lit ">Download the PowerPoint Presentation</a>".

(** What Streamlit is asked to show. *)
Inductive UiEvent :=
| UiTitle (body : str)
| UiTextInput (label : str)
| UiButton (label : str)
| UiInfo (body : str)
| UiSuccess (body : str)
| UiMarkdown (body : str) (unsafe_allow_html : bool).

(** The world a run of the script acts on: the prompts sent to the model so
    far (oldest first), the files by path (newest binding first) and what
    was shown (oldest first). *)
Record World := {
  prompts : list str;
  files : list (str * list ascii);
  ui : list UiEvent }.

(** Computations on the world; [None] is a raised exception, and the world
    keeps what was done before the raise. *)
Definition IO (A : Type) : Type := World -> option A * World.

Definition io_ret {A} (a : A) : IO A := fun w => (Some a, w).

Definition io_raise {A} : IO A := fun w => (None, w).

Definition io_bind {A B} (m : IO A) (k : A -> IO B) : IO B :=
  fun w => match m w with
           | (Some a, w') => k a w'
           | (None, w') => (None, w')
           end.

Declare Scope io_scope.
Delimit Scope io_scope with io.
Notation "x <- m ;; k" := (io_bind m (fun x => k))
  (at level 61, m at next level, right associativity) : io_scope.
Notation "m ;; k" := (io_bind m (fun _ => k))
  (at level 61, right associativity) : io_scope.
Local Open Scope io_scope.

(** [[f(x) for x in l]] *)
Fixpoint io_map {A B} (f : A -> IO B) (l : list A) : IO (list B) :=
  match l with
  | [] => io_ret []
  | x :: r => y <- f x ;; ys <- io_map f r ;; io_ret (y :: ys)
  end.

Fixpoint io_for_each {A} (l : list A) (body : A -> IO unit) : IO unit :=
  match l with
  | [] => io_ret tt
  | x :: r => body x ;; io_for_each r body
  end.

Definition show (e : UiEvent) : IO unit :=
  fun w => (Some tt, {| prompts := prompts w; files := files w;
                        ui := ui w ++ [e] |}).

Fixpoint lookup (path : str) (fs : list (str * list ascii)) : option (list ascii) :=
  match fs with
  | [] => None
  | (p, data) :: r =>
      if list_eq_dec ascii_dec p path then Some data else lookup path r
  end.

Section App.

(** [str.upper] *)
Variable upper : str -> str.

(** The model: [gemini n prompt] is [response.text] for the request number
    [n] of the run, [None] when the request or reading its text raises. *)
Variable gemini : nat -> str -> option str.

(** What [prs.save] writes for a deck. *)
Variable serialize : Presentation -> list ascii.

(** Whether the operating system carries a request out; otherwise the
    request raises. *)
Variable fs_ok : Effect -> bool.

(** [model.generate_content(prompt).text] *)
Definition generate_content (prompt : str) : IO str :=
  fun w =>
    (gemini (length (prompts w)) prompt,
     {| prompts := prompts w ++ [prompt]; files := files w; ui := ui w |}).

Definition generate_slide_titles (topic : str) : IO (list str) :=
  let prompt := titles_prompt topic in
  text <- generate_content prompt ;;
  io_ret (parse_titles text).

Definition generate_slide_content (slide_title : str) : IO str :=
  let prompt := content_prompt slide_title in
  text <- generate_content prompt ;;
  io_ret (Str.strip text).

(** One request of [create_presentation] to the file system. *)
Definition perform (e : Effect) : IO unit :=
  fun w =>
    if fs_ok e then
      match e with
      | Makedirs _ _ => (Some tt, w)
      | Save d file =>
          (Some tt, {| prompts := prompts w;
                       files := (file, serialize d) :: files w;
                       ui := ui w |})
      | Read _ => (Some tt, w)
      end
    else (None, w).

(** [open(path, "rb").read()]: raises when the operating system refuses
    the read, and when there is no such file. *)
Definition read_file (path : str) : IO (list ascii) :=
  fun w =>
    if fs_ok (Read path) then (lookup path (files w), w) else (None, w).

(** [create_presentation] run in the world: the deck is built, the
    requests are carried out in order, the path is returned. *)
Definition run_create_presentation (topic : str)
    (slide_titles slide_contents : list str) : IO str :=
  match create_presentation upper topic slide_titles slide_contents with
  | Some (ppt_filename, requests) =>
      io_for_each requests perform ;; io_ret ppt_filename
  | None => io_raise
  end.

Definition get_ppt_download_link (ppt_filename : str) : IO str :=
  ppt_contents <- read_file ppt_filename ;;
  let b64_ppt := Base64.b64encode ppt_contents in
  io_ret (download_anchor b64_ppt (basename ppt_filename)).

(** [main], with the values the two widgets return: the text typed and
    whether the button was pressed. *)
Definition main (topic : str) (generate_button : bool) : IO unit :=
  show (UiTitle (lit "AI-Powered PowerPoint Generator")) ;;
  show (UiTextInput (lit "Enter the topic for your presentation:")) ;;
  show (UiButton (lit "Generate Presentation")) ;;
  if generate_button && Str.truthy topic then
    show (UiInfo (lit "Generating presentation... Please wait.")) ;;
    slide_titles <- generate_slide_titles topic ;;
    slide_contents <- io_map generate_slide_content slide_titles ;;
    ppt_filename <- run_create_presentation topic slide_titles slide_contents ;;
    show (UiSuccess (lit "Presentation generated successfully!")) ;;
    link <- get_ppt_download_link ppt_filename ;;
    show (UiMarkdown link true)
  else io_ret tt.

End App.

Local Close Scope io_scope.

(** * Specification vocabulary *)

Definition starts_star (s : str) : bool :=
  match s with
  | c :: _ => (c =? star)%char
  | [] => false
  end.

(** The closing marker put after [inner] is the nearest one: "**" does not
    occur earlier in [inner ++ "**"]. *)
Definition nearest (inner : str) : Prop :=
  forall a b, inner ++ [star] <> a ++ star :: star :: b.

Definition any_text (inner : str) : Prop := True.
Definition one_line (inner : str) : Prop := ~ In nl inner.

(** [Unwraps ok s out]: [out] is [s] with every substring "**inner**",
    taken from the left, each opening marker closed by the nearest
    following one, replaced by [inner]; everything else is copied.  [ok]
    says which inner contents count as wrapped. *)
Inductive Unwraps (ok : str -> Prop) : str -> str -> Prop :=
| Unwraps_nil : Unwraps ok [] []
| Unwraps_pair inner rest out :
    ok inner -> nearest inner -> Unwraps ok rest out ->
    Unwraps ok (star :: star :: inner ++ star :: star :: rest) (inner ++ out)
| Unwraps_copy c t out :
    (~ exists inner rest,
         ok inner /\ c :: t = star :: star :: inner ++ star :: star :: rest) ->
    Unwraps ok t out ->
    Unwraps ok (c :: t) (c :: out).

(** The groups of lines the loop ends with, started with [current] already
    accumulated and [lines] still to come. *)
Fixpoint chunks_from (current : list str) (lines : list str) : list (list str) :=
  match lines with
  | [] => match current with [] => [] | _ :: _ => [current] end
  | x :: r =>
      if length current <? MAX_BULLETS_PER_SLIDE
      then chunks_from (current ++ [x]) r
      else current :: chunks_from [x] r
  end.

(** Number of lines of a chunk. *)
Definition line_count (chunk : str) : nat := length (Str.split nl chunk).

(** The sanitized lines of a content string. *)
Definition sanitized_lines (content : str) : list str :=
  map clean_text (Str.split nl content).

(** The paragraphs of the placeholder of a given [idx]; [slide.shapes.title]
    is the one of [idx] 0, the body of a content slide the one of [idx] 1. *)
Definition paragraphs_of (idx : nat) (sl : Slide) : list Paragraph :=
  match find (fun s => ph_idx s =? idx) (shapes sl) with
  | Some s => match text_frame s with Some ps => ps | None => [] end
  | None => []
  end.

Definition title_paragraphs : Slide -> list Paragraph := paragraphs_of 0.
Definition body_paragraphs : Slide -> list Paragraph := paragraphs_of 1.

(** [slide.shapes.title.text] *)
Definition title_text (sl : Slide) : str := text_of (title_paragraphs sl).

Definition font_size (p : Paragraph) : option Length := size (font p).

(** Heading of the slide built from a chunk. *)
Definition heading (slide_title : str) (first_slide : bool) : str :=
  if first_slide then slide_title else slide_title ++ lit " (contd.)".

(** The lines of a chunk that become bullets: stripped, blank ones dropped. *)
Definition bullet_texts (content : str) : list str :=
  filter Str.truthy (map Str.strip (Str.split nl content)).

Definition bullet_paragraph (t : str) : Paragraph :=
  {| text := t; font := {| size := None; bold := None |};
     space_after := Some (Pt 8); level := 0; alignment := Some LEFT |}.

(** The slide [add_content_slide] leaves in the store. *)
Definition content_slide (slide_title : str) (first_slide : bool) (content : str)
  : Slide :=
  {| slide_layout := title_and_content_layout;
     shapes :=
       [ {| ph_idx := 0; ph_type := TITLE;
            text_frame := Some (map (with_size SLIDE_FONT_SIZE)
              (map paragraph_of_line
                   (Str.split nl (heading slide_title first_slide)))) |};
         {| ph_idx := 1; ph_type := OBJECT;
            text_frame := Some (map (with_size SLIDE_FONT_SIZE)
              (empty_paragraph
               :: map bullet_paragraph
                      (map escape_ctrl (bullet_texts content)))) |} ] |}.

(** The Title Slide. *)
Definition title_slide (text0 : str) : Slide :=
  {| slide_layout := title_slide_layout;
     shapes :=
       [ {| ph_idx := 0; ph_type := CENTER_TITLE;
            text_frame := Some
              (match map paragraph_of_line (Str.split nl text0) with
               | p :: r => with_bold true p :: r
               | [] => []
               end) |};
         new_placeholder (1, SUBTITLE) ] |}.

(** What the code appends for one section, read off the code itself. *)
Definition slides_of_section (slide_title slide_content : str) : list Slide :=
  match add_section title_and_content_layout (slide_title, slide_content) [] with
  | Some (_, prs) => prs
  | None => []
  end.

(** The store whose last slide has a text frame [ps] in focus. *)
Definition focused (ss : list Slide) (L : Layout) (pre : list Shape)
    (idx : nat) (ty : PlaceholderType) (ps : list Paragraph) (post : list Shape)
  : Presentation :=
  ss ++ [{| slide_layout := L;
            shapes := pre ++ {| ph_idx := idx; ph_type := ty;
                                text_frame := Some ps |} :: post |}].

Definition shape_of (idx : nat) (ty : PlaceholderType) (ps : list Paragraph) : Shape :=
  {| ph_idx := idx; ph_type := ty; text_frame := Some ps |}.

Definition slide_of (L : Layout) (sh0 sh1 : Shape) : Slide :=
  {| slide_layout := L; shapes := [sh0; sh1] |}.

(** The slides built from the chunks of one section, the first of them
    built with [first_slide]. *)
Definition slides_from (slide_title : str) (first_slide : bool)
    (chunks : list str) : list Slide :=
  match chunks with
  | [] => []
  | c :: r =>
      content_slide slide_title first_slide c
      :: map (content_slide slide_title false) r
  end.

Definition section_slides (slide_title slide_content : str) : list Slide :=
  slides_from slide_title true (split_content_into_slides slide_content).

Definition deck (upper : str -> str) (topic : str)
    (slide_titles slide_contents : list str) : Presentation :=
  title_slide (upper topic)
  :: flat_map (fun tc => section_slides (fst tc) (snd tc))
              (zip slide_titles slide_contents).

Definition output_dir : str := lit "generated_ppt".

Definition file_name (topic : str) : str :=
  Str.replace " " "_" topic ++ lit "_presentation.pptx".

(** [create_presentation] returns [path] after asking for the output
    directory and saving [d] under [path]. *)
Definition produces (upper : str -> str) (topic : str)
    (slide_titles slide_contents : list str) (path : str) (d : Presentation)
  : Prop :=
  create_presentation upper topic slide_titles slide_contents
  = Some (path, [Makedirs (lit "generated_ppt") true; Save d path]).

(** The texts of the bullets of a content slide: its body paragraphs after
    the one [text_frame.clear()] leaves. *)
Definition bullets_of (sl : Slide) : list str := map text (tl (body_paragraphs sl)).

(** The section headings: the title, then the continuation heading. *)
Definition headings (slide_title : str) (chunks : nat) : list str :=
  match chunks with
  | O => []
  | S k => slide_title :: repeat (slide_title ++ lit " (contd.)") k
  end.

(** Fonts as the specification words them: every title at 30pt, every body
    paragraph at 16pt, on every slide. *)
Definition fonts_as_stated (d : Presentation) : Prop :=
  forall sl, In sl d ->
    Forall (fun p => font_size p = Some (Pt 30)) (title_paragraphs sl)
    /\ Forall (fun p => font_size p = Some (Pt 16)) (body_paragraphs sl).

(** The path as the specification words it: every whitespace character of
    the topic replaced, inside the output directory. *)
Definition path_as_stated (topic : str) : str :=
  lit "generated_ppt/"
  ++ map (fun c => if Str.isspace c then "_"%char else c) topic
  ++ lit "_presentation.pptx".

Definition tab : ascii := ascii_of_nat 9.

Fixpoint marker_free (s : str) : bool :=
  match s with
  | [] => true
  | c :: t => negb ((c =? star)%char && starts_star t) && marker_free t
  end.

(** No whitespace at the head. *)
Definition edge_ok (s : str) : bool :=
  match s with
  | [] => true
  | c :: _ => negb (Str.isspace c)
  end.

(** No whitespace at either end. *)
Definition stripped (s : str) : Prop :=
  edge_ok s = true /\ edge_ok (rev s) = true.

(** A title as one line of an answer carries it: not empty, no whitespace
    at either end, no newline. *)
Definition title_line (t : str) : Prop :=
  t <> [] /\ Str.strip t = t /\ ~ In nl t.

(** The 6-bit value of a character: its position in the alphabet. *)
Fixpoint position (c : ascii) (l : str) : nat :=
  match l with
  | [] => 0
  | x :: r => if (x =? c)%char then 0 else S (position c r)
  end.

Definition value (c : ascii) : nat := position c Base64.alphabet.

(** Decoding of a well-formed encoding: four characters give three bytes,
    fewer when the group ends in padding. *)
Fixpoint b64decode (s : str) : list ascii :=
  match s with
  | a :: b :: c :: d :: rest =>
      let b0 := ascii_of_nat (value a * 4 + value b / 16) in
      let b1 := ascii_of_nat (value b mod 16 * 16 + value c / 4) in
      let b2 := ascii_of_nat (value c mod 4 * 64 + value d) in
      if (d =? Base64.pad)%char then
        if (c =? Base64.pad)%char then [b0] else [b0; b1]
      else b0 :: b1 :: b2 :: b64decode rest
  | _ => []
  end.

(** The payload a browser takes from the link: what stands in the [href]
    after the header of the data URI, up to the quote that closes the
    attribute. *)
Definition href_header : str :=
  lit "<a href=" ++ [dquote]
  ++ lit "data:application/vnd.openxmlformats-officedocument.presentationml.presentation;base64,".

Fixpoint until_dquote (s : str) : str :=
  match s with
  | [] => []
  | c :: t => if (c =? dquote)%char then [] else c :: until_dquote t
  end.

Definition href_payload (link : str) : str :=
  until_dquote (skipn (length href_header) link).


(** What [main] shows before the guard, and after it when it goes on. *)
Definition widgets : list UiEvent :=
  [UiTitle (lit "AI-Powered PowerPoint Generator");
   UiTextInput (lit "Enter the topic for your presentation:");
   UiButton (lit "Generate Presentation")].

Definition info : UiEvent := UiInfo (lit "Generating presentation... Please wait.").

Definition success : UiEvent := UiSuccess (lit "Presentation generated successfully!").

(** The contents [main] collects when the model answers request number [n]
    with [reply n]: content [i] is the stripped answer to request
    [first + i], made for title [i]. *)
Definition contents_of (reply : nat -> str -> str) (first : nat)
    (titles : list str) : list str :=
  map (fun i => Str.strip (reply (first + i) (content_prompt (nth i titles []))))
      (seq 0 (length titles)).

Definition empty_world : World := {| prompts := []; files := []; ui := [] |}.

(** * Properties *)

(** ** The sanitizer *)

Lemma marker_cons c t :
  Re.marker (c :: t) =
  if (c =? star)%char && starts_star t then Some (tl t) else None.
Proof.
  destruct t as [|d t]; simpl.
  - now rewrite andb_false_r.
  - reflexivity.
Qed.

Lemma marker_inv s r : Re.marker s = Some r -> s = star :: star :: r.
Proof.
  destruct s as [|c1 [|c2 rest]]; simpl; try discriminate.
  destruct (c1 =? star)%char eqn:E1; destruct (c2 =? star)%char eqn:E2;
    simpl; try discriminate.
  apply Ascii.eqb_eq in E1, E2. intros [= <-]. now subst.
Qed.

Lemma marker_stars r : Re.marker (star :: star :: r) = Some r.
Proof. reflexivity. Qed.

Lemma star_not_nl : (star =? nl)%char = false.
Proof. reflexivity. Qed.

Lemma lazy_group_eq s :
  Re.lazy_group s =
  match Re.marker s with
  | Some rest => Some ([], rest)
  | None =>
      match s with
      | [] => None
      | c :: t =>
          if (c =? nl)%char then None
          else match Re.lazy_group t with
               | Some (g, rest) => Some (c :: g, rest)
               | None => None
               end
      end
  end.
Proof. destruct s; reflexivity. Qed.

Lemma lazy_group_inv s g rest :
  Re.lazy_group s = Some (g, rest) -> s = g ++ star :: star :: rest.
Proof.
  revert g; induction s as [|c t IH]; intros g; rewrite lazy_group_eq.
  - simpl. discriminate.
  - destruct (Re.marker (c :: t)) as [r|] eqn:Em.
    + intros [= <- <-]. now apply marker_inv.
    + destruct (c =? nl)%char; try discriminate.
      destruct (Re.lazy_group t) as [[g' r']|]; try discriminate.
      intros [= <- <-]. simpl. f_equal. now apply IH.
Qed.

Lemma match_here_inv s g rest :
  Re.match_here s = Some (g, rest) ->
  s = star :: star :: g ++ star :: star :: rest.
Proof.
  unfold Re.match_here. destruct (Re.marker s) as [r|] eqn:Em; try discriminate.
  intros H. apply marker_inv in Em. apply lazy_group_inv in H. now subst.
Qed.

Lemma match_here_length s g rest :
  Re.match_here s = Some (g, rest) -> length rest < length s.
Proof.
  intros H. apply match_here_inv in H. subst. simpl.
  rewrite length_app. simpl. lia.
Qed.

(** The fuel given by [clean_text] is enough: more fuel changes nothing. *)
Lemma sub_fuel n : forall m s,
  length s <= n -> length s <= m -> Re.sub n s = Re.sub m s.
Proof.
  induction n as [|n IH]; intros m s Hn Hm.
  - destruct s; simpl in Hn; try lia. now destruct m.
  - destruct m as [|m].
    + destruct s; simpl in Hm; try lia. reflexivity.
    + destruct s as [|c t]; [reflexivity|]. simpl Re.sub.
      destruct (Re.match_here (c :: t)) as [[g rest]|] eqn:E.
      * apply match_here_length in E. simpl in *. f_equal. apply IH; lia.
      * simpl in *. f_equal. apply IH; lia.
Qed.

Lemma clean_text_match s g rest :
  Re.match_here s = Some (g, rest) -> clean_text s = g ++ clean_text rest.
Proof.
  intros H. pose proof (match_here_length _ _ _ H) as L.
  unfold clean_text. destruct s as [|c t]; [discriminate|].
  simpl length. simpl Re.sub. rewrite H. f_equal.
  apply sub_fuel; simpl in L; lia.
Qed.

Lemma clean_text_copy c t :
  Re.match_here (c :: t) = None -> clean_text (c :: t) = c :: clean_text t.
Proof.
  intros H. unfold clean_text. simpl length. simpl Re.sub. now rewrite H.
Qed.

Lemma match_here_no_marker s : Re.marker s = None -> Re.match_here s = None.
Proof. unfold Re.match_here. now intros ->. Qed.

Lemma clean_text_not_star c t :
  (c =? star)%char = false -> clean_text (c :: t) = c :: clean_text t.
Proof.
  intros H. apply clean_text_copy, match_here_no_marker.
  rewrite marker_cons, H. reflexivity.
Qed.

(** What does not begin with a star is not made to begin with one. *)
Lemma starts_star_clean_text s :
  starts_star s = false -> starts_star (clean_text s) = false.
Proof.
  destruct s as [|c t]; [reflexivity|]. simpl. intros H.
  now rewrite clean_text_not_star.
Qed.

Lemma marker_clean_tail c t :
  Re.marker (c :: t) = None -> Re.marker (c :: clean_text t) = None.
Proof.
  rewrite !marker_cons. destruct (c =? star)%char; [|reflexivity]. simpl.
  destruct (starts_star t) eqn:Et; [discriminate|].
  now rewrite starts_star_clean_text.
Qed.

(** Group 1 of a match is copied unchanged by a second pass. *)
Lemma lazy_group_absorb s : forall g rest,
  Re.lazy_group s = Some (g, rest) ->
  forall o, clean_text (g ++ o) = g ++ clean_text o.
Proof.
  induction s as [|c t IH]; intros g rest; rewrite lazy_group_eq.
  - simpl. discriminate.
  - destruct (Re.marker (c :: t)) as [r|] eqn:Em.
    + intros [= <- <-] o. reflexivity.
    + destruct (c =? nl)%char eqn:En; try discriminate.
      destruct (Re.lazy_group t) as [[g' r']|] eqn:El; try discriminate.
      intros [= <- <-] o. simpl.
      rewrite clean_text_copy; [now rewrite (IH _ _ eq_refl)|].
      apply match_here_no_marker. rewrite marker_cons in *.
      destruct (c =? star)%char; [|reflexivity]. simpl in *.
      destruct (starts_star t) eqn:Et; [discriminate|].
      rewrite lazy_group_eq in El. destruct t as [|d t']; [discriminate|].
      simpl in Et. rewrite marker_cons, Et in El. simpl in El.
      destruct (d =? nl)%char; try discriminate.
      destruct (Re.lazy_group t') as [[g'' r'']|]; try discriminate.
      injection El as <- <-. simpl. now rewrite Et.
Qed.

(** A line without a closing marker still has none after sanitizing. *)
Lemma lazy_group_None_clean r :
  Re.lazy_group r = None -> Re.lazy_group (clean_text r) = None.
Proof.
  induction r as [|c t IH]; [reflexivity|].
  rewrite lazy_group_eq.
  destruct (Re.marker (c :: t)) as [r|] eqn:Em; [discriminate|].
  rewrite clean_text_copy by now apply match_here_no_marker.
  intros H. rewrite lazy_group_eq.
  pose proof (marker_clean_tail _ _ Em) as Em'.
  rewrite Em'. destruct (c =? nl)%char; [reflexivity|].
  destruct (Re.lazy_group t) as [[g' r']|]; [discriminate|].
  now rewrite IH.
Qed.

Lemma clean_text_idem_length n : forall s,
  length s <= n -> clean_text (clean_text s) = clean_text s.
Proof.
  induction n as [|n IH]; intros s L.
  - destruct s; [reflexivity | simpl in L; lia].
  - destruct s as [|c t]; [reflexivity|].
    destruct (Re.match_here (c :: t)) as [[g rest]|] eqn:E.
    + rewrite (clean_text_match _ _ _ E).
      pose proof (match_here_length _ _ _ E) as L'.
      unfold Re.match_here in E.
      destruct (Re.marker (c :: t)) as [r|]; [|discriminate].
      rewrite (lazy_group_absorb _ _ _ E). f_equal. apply IH. simpl in *; lia.
    + rewrite (clean_text_copy _ _ E).
      assert (IHt : clean_text (clean_text t) = clean_text t)
        by (apply IH; simpl in L; lia).
      rewrite clean_text_copy; [now rewrite IHt|].
      unfold Re.match_here in *.
      destruct (Re.marker (c :: t)) as [r|] eqn:Em.
      * apply marker_inv in Em. injection Em as -> ->.
        assert (Et : Re.match_here (star :: r) = None).
        { unfold Re.match_here. rewrite marker_cons. simpl.
          destruct (starts_star r) eqn:Er; [|reflexivity].
          destruct r as [|d r']; [discriminate|]. simpl in Er.
          rewrite lazy_group_eq in E. rewrite marker_cons, Er in E. simpl in E.
          apply Ascii.eqb_eq in Er. subst d. rewrite star_not_nl in E.
          destruct (starts_star r'); [discriminate|]. cbn [tl].
          now destruct (Re.lazy_group r') as [[? ?]|]. }
        rewrite (clean_text_copy _ _ Et), marker_stars.
        now apply lazy_group_None_clean.
      * now rewrite (marker_clean_tail _ _ Em).
Qed.

Lemma lazy_group_one_line s : forall g rest,
  Re.lazy_group s = Some (g, rest) -> one_line g.
Proof.
  induction s as [|c t IH]; intros g rest; rewrite lazy_group_eq.
  - simpl. discriminate.
  - destruct (Re.marker (c :: t)) as [r|].
    + intros [= <- <-]. intros [].
    + destruct (c =? nl)%char eqn:En; try discriminate.
      destruct (Re.lazy_group t) as [[g' r']|] eqn:El; try discriminate.
      intros [= <- <-] [->|Hin].
      * now rewrite Ascii.eqb_refl in En.
      * now apply (IH _ _ eq_refl).
Qed.

Lemma starts_star_app_star g r :
  starts_star (g ++ star :: r) = starts_star (g ++ [star]).
Proof. now destruct g. Qed.

Lemma lazy_group_nearest s : forall g rest,
  Re.lazy_group s = Some (g, rest) -> nearest g.
Proof.
  induction s as [|c t IH]; intros g rest; rewrite lazy_group_eq.
  - simpl. discriminate.
  - destruct (Re.marker (c :: t)) as [r|] eqn:Em.
    + intros [= <- <-] a b. destruct a as [|x [|y a]]; discriminate.
    + destruct (c =? nl)%char eqn:En; try discriminate.
      destruct (Re.lazy_group t) as [[g' r']|] eqn:El; try discriminate.
      intros [= <- <-] a b Hab.
      pose proof (lazy_group_inv _ _ _ El) as ->.
      destruct a as [|x a]; simpl in Hab.
      * injection Hab as -> Hg. rewrite marker_cons in Em.
        rewrite Ascii.eqb_refl, starts_star_app_star, Hg in Em.
        discriminate Em.
      * injection Hab as _ Hg. now apply (IH _ _ eq_refl a b).
Qed.

Lemma nearest_tail c g : nearest (c :: g) -> nearest g.
Proof. intros H a b E. apply (H (c :: a) b). simpl. now rewrite E. Qed.

Lemma nearest_marker c g rest :
  nearest (c :: g) -> Re.marker (c :: g ++ star :: star :: rest) = None.
Proof.
  intros H. rewrite marker_cons.
  destruct (c =? star)%char eqn:Ec; [|reflexivity]. simpl.
  apply Ascii.eqb_eq in Ec. subst c.
  rewrite starts_star_app_star.
  destruct (starts_star (g ++ [star])) eqn:Es; [|reflexivity].
  exfalso. destruct (g ++ [star]) as [|d r] eqn:Eg; [discriminate|].
  simpl in Es. apply Ascii.eqb_eq in Es. subst d.
  apply (H [] r). simpl. now rewrite Eg.
Qed.

(** The lazy group stops exactly at the nearest closing marker of the line. *)
Lemma lazy_group_complete g : forall rest,
  one_line g -> nearest g ->
  Re.lazy_group (g ++ star :: star :: rest) = Some (g, rest).
Proof.
  induction g as [|c g IH]; intros rest Hl Hn; [reflexivity|].
  rewrite lazy_group_eq. simpl app. rewrite (nearest_marker _ _ _ Hn).
  destruct (c =? nl)%char eqn:En.
  - apply Ascii.eqb_eq in En. subst c. exfalso. apply Hl. now left.
  - rewrite IH; [reflexivity | | now apply nearest_tail in Hn].
    intros Hin. apply Hl. now right.
Qed.

(** If a closing marker follows on the line, the lazy group finds one. *)
Lemma lazy_group_total g : forall rest,
  one_line g -> Re.lazy_group (g ++ star :: star :: rest) <> None.
Proof.
  induction g as [|c g IH]; intros rest Hl; [discriminate|].
  rewrite lazy_group_eq. simpl app.
  destruct (Re.marker (c :: g ++ star :: star :: rest)); [discriminate|].
  destruct (c =? nl)%char eqn:En.
  - apply Ascii.eqb_eq in En. subst c. exfalso. apply Hl. now left.
  - assert (Hg : one_line g) by (intros Hin; apply Hl; now right).
    specialize (IH rest Hg).
    destruct (Re.lazy_group (g ++ star :: star :: rest)) as [[? ?]|];
      [discriminate | congruence].
Qed.

Lemma match_here_None_spec c t :
  Re.match_here (c :: t) = None ->
  ~ exists inner rest,
      one_line inner /\ c :: t = star :: star :: inner ++ star :: star :: rest.
Proof.
  intros H (inner & rest & Hl & E). rewrite E in H.
  unfold Re.match_here in H. rewrite marker_stars in H.
  now apply (lazy_group_total inner rest).
Qed.

Lemma clean_text_unwraps_length n : forall s,
  length s <= n -> Unwraps one_line s (clean_text s).
Proof.
  induction n as [|n IH]; intros s L.
  - destruct s; [constructor | simpl in L; lia].
  - destruct s as [|c t]; [constructor|].
    destruct (Re.match_here (c :: t)) as [[g rest]|] eqn:E.
    + rewrite (clean_text_match _ _ _ E).
      pose proof (match_here_length _ _ _ E) as L'.
      pose proof (match_here_inv _ _ _ E) as Es. rewrite Es.
      unfold Re.match_here in E.
      destruct (Re.marker (c :: t)) as [r|]; [|discriminate].
      constructor.
      * eapply lazy_group_one_line; eauto.
      * eapply lazy_group_nearest; eauto.
      * apply IH. simpl in *; lia.
    + rewrite (clean_text_copy _ _ E). constructor.
      * now apply match_here_None_spec.
      * apply IH. simpl in L; lia.
Qed.

Lemma unwraps_clean_text s o : Unwraps one_line s o -> o = clean_text s.
Proof.
  induction 1 as [|inner rest out Hl Hn _ IH|c t out Hno _ IH].
  - reflexivity.
  - subst out. symmetry. apply clean_text_match.
    unfold Re.match_here. rewrite marker_stars.
    now apply lazy_group_complete.
  - subst out. symmetry. apply clean_text_copy.
    destruct (Re.match_here (c :: t)) as [[g rest]|] eqn:E; [|reflexivity].
    exfalso. apply Hno. exists g, rest. split.
    + unfold Re.match_here in E.
      destruct (Re.marker (c :: t)); [|discriminate].
      eapply lazy_group_one_line; eauto.
    + now apply match_here_inv.
Qed.


(** ** Splitting and joining *)

Lemma split_not_nil sep s : Str.split sep s <> [].
Proof.
  destruct s as [|c t]; simpl; [discriminate|].
  destruct (c =? sep)%char; [discriminate|].
  destruct (Str.split sep t); discriminate.
Qed.

Lemma split_cons sep c t :
  Str.split sep (c :: t) =
  if (c =? sep)%char then [] :: Str.split sep t
  else (c :: hd [] (Str.split sep t)) :: tl (Str.split sep t).
Proof.
  simpl. destruct (c =? sep)%char; [reflexivity|].
  pose proof (split_not_nil sep t).
  destruct (Str.split sep t); [congruence | reflexivity].
Qed.

Lemma join_cons sep x y r :
  Str.join sep (x :: y :: r) = x ++ sep ++ Str.join sep (y :: r).
Proof. reflexivity. Qed.

Lemma join_split sep s : Str.join [sep] (Str.split sep s) = s.
Proof.
  induction s as [|c t IH]; [reflexivity|].
  rewrite split_cons. pose proof (split_not_nil sep t) as Hne.
  destruct (Str.split sep t) as [|h r] eqn:E; [congruence|].
  destruct (c =? sep)%char eqn:Ec.
  - apply Ascii.eqb_eq in Ec. subst c. rewrite join_cons. simpl. now rewrite <- IH.
  - simpl hd. simpl tl. rewrite <- IH. destruct r; reflexivity.
Qed.

Lemma split_sep_free sep s : ~ In sep s -> Str.split sep s = [s].
Proof.
  induction s as [|c t IH]; intros H; [reflexivity|].
  rewrite split_cons. destruct (c =? sep)%char eqn:Ec.
  - apply Ascii.eqb_eq in Ec. subst c. exfalso. apply H. now left.
  - rewrite IH; [reflexivity|]. intros Hin. apply H. now right.
Qed.

Lemma split_app_sep sep a b :
  ~ In sep a -> Str.split sep (a ++ sep :: b) = a :: Str.split sep b.
Proof.
  induction a as [|c t IH]; intros H.
  - simpl. now rewrite Ascii.eqb_refl.
  - simpl app. rewrite split_cons. destruct (c =? sep)%char eqn:Ec.
    + apply Ascii.eqb_eq in Ec. subst c. exfalso. apply H. now left.
    + rewrite IH; [reflexivity|]. intros Hin. apply H. now right.
Qed.

Lemma split_join sep l :
  l <> [] -> Forall (fun x => ~ In sep x) l ->
  Str.split sep (Str.join [sep] l) = l.
Proof.
  induction l as [|x r IH]; intros Hne Hf; [congruence|].
  inversion Hf as [|? ? Hx Hr]; subst.
  destruct r as [|y r].
  - simpl. now apply split_sep_free.
  - rewrite join_cons. simpl app. rewrite split_app_sep by assumption.
    f_equal. apply IH; [discriminate | assumption].
Qed.

Lemma split_lines_sep_free sep s : Forall (fun x => ~ In sep x) (Str.split sep s).
Proof.
  induction s as [|c t IH].
  - constructor; [intros [] | constructor].
  - rewrite split_cons. pose proof (split_not_nil sep t) as Hne.
    destruct (Str.split sep t) as [|h r]; [congruence|].
    inversion IH as [|? ? Hh Hr]; subst.
    destruct (c =? sep)%char eqn:Ec.
    + constructor; [intros [] | assumption].
    + simpl. constructor; [|assumption].
      intros [->|Hin]; [now rewrite Ascii.eqb_refl in Ec | now apply Hh].
Qed.

Lemma join_app sep a b :
  a <> [] -> b <> [] ->
  Str.join sep (a ++ b) = Str.join sep a ++ sep ++ Str.join sep b.
Proof.
  induction a as [|x r IH]; intros Ha Hb; [congruence|].
  destruct r as [|y r].
  - destruct b; [congruence | reflexivity].
  - simpl app. rewrite !join_cons.
    change (y :: r ++ b) with ((y :: r) ++ b). rewrite IH by (discriminate || assumption).
    now rewrite <- !app_assoc.
Qed.

Lemma join_concat sep (gs : list (list str)) :
  Forall (fun g => g <> []) gs ->
  Str.join sep (map (Str.join sep) gs) = Str.join sep (concat gs).
Proof.
  induction gs as [|g r IH]; intros Hf; [reflexivity|].
  inversion Hf as [|? ? Hg Hr]; subst.
  destruct r as [|g' r].
  - simpl. now rewrite app_nil_r.
  - change (map (Str.join sep) (g :: g' :: r))
      with (Str.join sep g :: Str.join sep g' :: map (Str.join sep) r).
    rewrite join_cons. change (Str.join sep g' :: map (Str.join sep) r)
      with (map (Str.join sep) (g' :: r)). rewrite IH by assumption.
    change (concat (g :: g' :: r)) with (g ++ concat (g' :: r)).
    symmetry. apply join_app; [assumption|].
    inversion Hr; subst. destruct g'; [congruence | discriminate].
Qed.

Lemma clean_text_incl_length n : forall s x,
  length s <= n -> In x (clean_text s) -> In x s.
Proof.
  induction n as [|n IH]; intros s x L.
  - destruct s; [trivial | simpl in L; lia].
  - destruct s as [|c t]; [trivial|].
    destruct (Re.match_here (c :: t)) as [[g rest]|] eqn:E.
    + rewrite (clean_text_match _ _ _ E).
      pose proof (match_here_length _ _ _ E) as L'.
      rewrite (match_here_inv _ _ _ E). intros Hin.
      apply in_app_or in Hin. right. right. apply in_or_app.
      destruct Hin as [Hin|Hin]; [now left|].
      right. right. right. apply IH; [simpl in *; lia | assumption].
    + rewrite (clean_text_copy _ _ E). intros [->|Hin]; [now left|].
      right. apply IH; [simpl in L; lia | assumption].
Qed.

Lemma clean_text_one_line s : ~ In nl s -> ~ In nl (clean_text s).
Proof. intros H Hin. apply H. eapply clean_text_incl_length; eauto. Qed.

Lemma sanitized_lines_one_line content :
  Forall (fun x => ~ In nl x) (sanitized_lines content).
Proof.
  unfold sanitized_lines. apply Forall_map.
  eapply Forall_impl; [|apply split_lines_sep_free].
  intros a. apply clean_text_one_line.
Qed.

(** ** The paginator *)

Lemma paginate_step_eq slides current x :
  paginate_step (slides, current) x =
  if length current <? MAX_BULLETS_PER_SLIDE
  then (slides, current ++ [clean_text x])
  else (slides ++ [Str.join [nl] current], [clean_text x]).
Proof. reflexivity. Qed.

Lemma paginate_fold l : forall slides current,
  (let '(s, c) := fold_left paginate_step l (slides, current) in
   match c with
   | [] => s
   | _ :: _ => s ++ [Str.join [nl] c]
   end)
  = slides ++ map (Str.join [nl]) (chunks_from current (map clean_text l)).
Proof.
  induction l as [|x r IH]; intros slides current.
  - simpl. destruct current; simpl; [now rewrite app_nil_r | reflexivity].
  - cbn [fold_left map chunks_from]. rewrite paginate_step_eq.
    destruct (length current <? MAX_BULLETS_PER_SLIDE).
    + apply IH.
    + rewrite IH. simpl. now rewrite <- app_assoc.
Qed.

Lemma split_content_into_slides_chunks content :
  split_content_into_slides content
  = map (Str.join [nl]) (chunks_from [] (sanitized_lines content)).
Proof.
  unfold split_content_into_slides, sanitized_lines.
  exact (paginate_fold (Str.split nl content) [] []).
Qed.

Lemma chunks_from_concat l : forall current,
  concat (chunks_from current l) = current ++ l.
Proof.
  induction l as [|x r IH]; intros current; simpl.
  - destruct current; simpl; now rewrite ?app_nil_r.
  - destruct (length current <? MAX_BULLETS_PER_SLIDE).
    + rewrite IH. now rewrite <- app_assoc.
    + simpl. now rewrite IH.
Qed.

Lemma chunks_from_not_nil l : forall current,
  current <> [] -> Forall (fun g => g <> []) (chunks_from current l).
Proof.
  induction l as [|x r IH]; intros current Hc; simpl.
  - destruct current; [congruence|]. constructor; [discriminate | constructor].
  - destruct (length current <? MAX_BULLETS_PER_SLIDE).
    + apply IH. now destruct current.
    + constructor; [assumption|]. apply IH. discriminate.
Qed.

Lemma chunks_from_nil_not_nil l : Forall (fun g => g <> []) (chunks_from [] l).
Proof.
  destruct l as [|x r]; simpl; [constructor|].
  apply chunks_from_not_nil. discriminate.
Qed.

Lemma chunks_from_incl l : forall current g x,
  In g (chunks_from current l) -> In x g -> In x (current ++ l).
Proof.
  intros current g x Hg Hx. rewrite <- chunks_from_concat.
  apply in_concat. eauto.
Qed.

(** Shape of the result: full groups, then one last group of 1 to 6 lines. *)
Lemma chunks_from_shape l : forall current,
  length current <= MAX_BULLETS_PER_SLIDE -> current <> [] ->
  exists full last,
    chunks_from current l = full ++ [last]
    /\ Forall (fun g => length g = MAX_BULLETS_PER_SLIDE) full
    /\ 1 <= length last <= MAX_BULLETS_PER_SLIDE.
Proof.
  induction l as [|x r IH]; intros current L Hc; simpl.
  - destruct current as [|c0 cur]; [congruence|].
    exists [], (c0 :: cur). repeat split; [constructor | simpl; lia | assumption].
  - destruct (length current <? MAX_BULLETS_PER_SLIDE) eqn:E.
    + apply Nat.ltb_lt in E. apply IH.
      * rewrite length_app. simpl. lia.
      * now destruct current.
    + apply Nat.ltb_ge in E.
      destruct (IH [x]) as (full & last & Eq & Hf & Hl);
        [unfold MAX_BULLETS_PER_SLIDE; simpl; lia | discriminate |].
      exists (current :: full), last. rewrite Eq. repeat split; try tauto.
      constructor; [lia | assumption].
Qed.

Lemma line_count_join g :
  g <> [] -> Forall (fun x => ~ In nl x) g ->
  line_count (Str.join [nl] g) = length g.
Proof. intros Hne Hf. unfold line_count. now rewrite split_join. Qed.

Lemma chunks_sanitized_one_line content g :
  In g (chunks_from [] (sanitized_lines content)) ->
  Forall (fun x => ~ In nl x) g.
Proof.
  intros Hg. apply Forall_forall. intros x Hx.
  pose proof (chunks_from_incl _ _ _ _ Hg Hx) as Hin. simpl in Hin.
  pose proof (sanitized_lines_one_line content) as Hf.
  rewrite Forall_forall in Hf. now apply Hf.
Qed.

Lemma line_counts content :
  map line_count (split_content_into_slides content)
  = map (@length str) (chunks_from [] (sanitized_lines content)).
Proof.
  rewrite split_content_into_slides_chunks, map_map.
  apply map_ext_in. intros g Hg. apply line_count_join.
  - pose proof (chunks_from_nil_not_nil (sanitized_lines content)) as Hf.
    rewrite Forall_forall in Hf. now apply Hf.
  - now apply (chunks_sanitized_one_line content).
Qed.

Lemma sanitized_lines_not_nil content : sanitized_lines content <> [].
Proof.
  unfold sanitized_lines. pose proof (split_not_nil nl content).
  destruct (Str.split nl content); [congruence | discriminate].
Qed.

(** ** The store *)

Lemma on_nth_middle {A R} (f : A -> option (R * A)) a x b :
  on_nth (length a) f (a ++ x :: b) =
  match f x with
  | Some (r, x') => Some (r, a ++ x' :: b)
  | None => None
  end.
Proof.
  unfold on_nth. rewrite nth_error_app2, Nat.sub_diag by lia. simpl.
  destruct (f x) as [[r x']|]; [|reflexivity]. f_equal. f_equal.
  induction a as [|h a IH]; simpl; [reflexivity | now rewrite IH].
Qed.

Lemma on_nth_last {A R} (f : A -> option (R * A)) a x :
  on_nth (length a) f (a ++ [x]) =
  match f x with
  | Some (r, x') => Some (r, a ++ [x'])
  | None => None
  end.
Proof. apply on_nth_middle. Qed.

Lemma with_slide_last {R} ss sl (f : Slide -> option (R * Slide)) :
  with_slide (length ss) f (ss ++ [sl]) =
  match f sl with
  | Some (r, sl') => Some (r, ss ++ [sl'])
  | None => None
  end.
Proof. apply on_nth_last. Qed.

Lemma with_text_frame_focused {R} ss L pre idx ty ps post
    (f : list Paragraph -> option (R * list Paragraph)) :
  with_text_frame {| sh_slide := length ss; sh_pos := length pre |} f
    (focused ss L pre idx ty ps post) =
  match f ps with
  | Some (r, ps') => Some (r, focused ss L pre idx ty ps' post)
  | None => None
  end.
Proof.
  unfold with_text_frame, with_shape, focused. cbn [sh_slide sh_pos].
  rewrite with_slide_last. cbn [shapes slide_layout].
  rewrite on_nth_middle. cbn [text_frame ph_idx ph_type].
  destruct (f ps) as [[r ps']|]; reflexivity.
Qed.

Lemma with_paragraph_focused {R} ss L pre idx ty done p todo post
    (f : Paragraph -> option (R * Paragraph)) :
  with_paragraph {| pa_shape := {| sh_slide := length ss; sh_pos := length pre |};
                    pa_pos := length done |} f
    (focused ss L pre idx ty (done ++ p :: todo) post) =
  match f p with
  | Some (r, p') => Some (r, focused ss L pre idx ty (done ++ p' :: todo) post)
  | None => None
  end.
Proof.
  unfold with_paragraph. cbn [pa_shape pa_pos].
  rewrite with_text_frame_focused, on_nth_middle.
  destruct (f p) as [[r p']|]; reflexivity.
Qed.

Lemma bind_eq {A B} (m : M A) (k : A -> M B) prs :
  bind m k prs = match m prs with Some (a, prs') => k a prs' | None => None end.
Proof. reflexivity. Qed.

(** One bullet. *)
Lemma add_bullet_focused ss L pre idx ty ps post bullet :
  add_bullet {| sh_slide := length ss; sh_pos := length pre |} bullet
    (focused ss L pre idx ty ps post) =
  Some (tt, focused ss L pre idx ty
              (ps ++ map bullet_paragraph
                         (map escape_ctrl
                              (filter Str.truthy [Str.strip bullet]))) post).
Proof.
  unfold add_bullet. cbn [filter map].
  destruct (Str.truthy (Str.strip bullet)).
  - unfold add_paragraph, set_text, set_space_after, set_level, set_alignment.
    rewrite bind_eq, with_text_frame_focused.
    rewrite bind_eq, with_paragraph_focused. cbn [update].
    rewrite bind_eq, with_paragraph_focused. cbn [update].
    rewrite bind_eq, with_paragraph_focused. cbn [update].
    rewrite with_paragraph_focused. reflexivity.
  - cbn. now rewrite app_nil_r.
Qed.

Lemma add_bullets_focused ss L pre idx ty post lines : forall ps,
  for_each lines (add_bullet {| sh_slide := length ss; sh_pos := length pre |})
    (focused ss L pre idx ty ps post) =
  Some (tt, focused ss L pre idx ty
              (ps ++ map bullet_paragraph
                         (map escape_ctrl
                              (filter Str.truthy (map Str.strip lines)))) post).
Proof.
  induction lines as [|b r IH]; intros ps.
  - cbn. now rewrite app_nil_r.
  - cbn [for_each]. rewrite bind_eq, add_bullet_focused, IH.
    cbn [map filter]. destruct (Str.truthy (Str.strip b)); cbn [map app].
    + now rewrite <- app_assoc.
    + now rewrite app_nil_r.
Qed.

(** The inner [for paragraph in shape.text_frame.paragraphs]. *)
Lemma resize_focused ss L pre idx ty post sz todo : forall done,
  for_each (map (fun pos => {| pa_shape := {| sh_slide := length ss;
                                              sh_pos := length pre |};
                               pa_pos := pos |})
                (seq (length done) (length todo)))
           (fun paragraph => set_font_size paragraph sz)
    (focused ss L pre idx ty (done ++ todo) post) =
  Some (tt, focused ss L pre idx ty (done ++ map (with_size sz) todo) post).
Proof.
  induction todo as [|p r IH]; intros done; [reflexivity|].
  cbn [length seq map for_each]. unfold set_font_size at 1.
  rewrite bind_eq, with_paragraph_focused. cbn [update].
  change (done ++ with_size sz p :: r) with (done ++ [with_size sz p] ++ r).
  rewrite app_assoc.
  replace (S (length done)) with (length (done ++ [with_size sz p]))
    by (rewrite length_app; simpl; lia).
  rewrite IH. now rewrite <- app_assoc.
Qed.

(** The body of [for shape in slide.shapes] on a shape with a text frame. *)
Lemma resize_shape_focused ss L pre idx ty post ps :
  (has <- has_text_frame {| sh_slide := length ss; sh_pos := length pre |} ;;
   if has : bool then
     paragraphs <- paragraphs_iter {| sh_slide := length ss; sh_pos := length pre |} ;;
     for_each paragraphs (fun paragraph => set_font_size paragraph SLIDE_FONT_SIZE)
   else ret tt)
    (focused ss L pre idx ty ps post) =
  Some (tt, focused ss L pre idx ty (map (with_size SLIDE_FONT_SIZE) ps) post).
Proof.
  rewrite bind_eq.
  assert (H : has_text_frame {| sh_slide := length ss; sh_pos := length pre |}
                (focused ss L pre idx ty ps post)
              = Some (true, focused ss L pre idx ty ps post)).
  { unfold has_text_frame, with_shape, focused. cbn [sh_slide sh_pos].
    rewrite with_slide_last. cbn [shapes slide_layout].
    rewrite on_nth_middle. reflexivity. }
  rewrite H. unfold paragraphs_iter.
  rewrite bind_eq, with_text_frame_focused. cbn [read].
  exact (resize_focused ss L pre idx ty post SLIDE_FONT_SIZE ps []).
Qed.

Lemma text_frame_first {R} ss L idx ty ps sh1
    (f : list Paragraph -> option (R * list Paragraph)) :
  with_text_frame {| sh_slide := length ss; sh_pos := 0 |} f
    (ss ++ [slide_of L (shape_of idx ty ps) sh1]) =
  match f ps with
  | Some (r, ps') => Some (r, ss ++ [slide_of L (shape_of idx ty ps') sh1])
  | None => None
  end.
Proof. exact (with_text_frame_focused ss L [] idx ty ps [sh1] f). Qed.

Lemma text_frame_second {R} ss L idx ty ps sh0
    (f : list Paragraph -> option (R * list Paragraph)) :
  with_text_frame {| sh_slide := length ss; sh_pos := 1 |} f
    (ss ++ [slide_of L sh0 (shape_of idx ty ps)]) =
  match f ps with
  | Some (r, ps') => Some (r, ss ++ [slide_of L sh0 (shape_of idx ty ps')])
  | None => None
  end.
Proof. exact (with_text_frame_focused ss L [sh0] idx ty ps [] f). Qed.

Lemma first_paragraph {R} ss L idx ty p ps sh1
    (f : Paragraph -> option (R * Paragraph)) :
  with_paragraph {| pa_shape := {| sh_slide := length ss; sh_pos := 0 |};
                    pa_pos := 0 |} f
    (ss ++ [slide_of L (shape_of idx ty (p :: ps)) sh1]) =
  match f p with
  | Some (r, p') => Some (r, ss ++ [slide_of L (shape_of idx ty (p' :: ps)) sh1])
  | None => None
  end.
Proof. exact (with_paragraph_focused ss L [] idx ty [] p ps [sh1] f). Qed.

Lemma placeholder_lookup ss L i0 t0 ps0 i1 t1 ps1 idx pos :
  find_idx idx 0 [shape_of i0 t0 ps0; shape_of i1 t1 ps1] = Some pos ->
  placeholders_getitem (length ss) idx
    (ss ++ [slide_of L (shape_of i0 t0 ps0) (shape_of i1 t1 ps1)]) =
  Some ({| sh_slide := length ss; sh_pos := pos |},
        ss ++ [slide_of L (shape_of i0 t0 ps0) (shape_of i1 t1 ps1)]).
Proof.
  intros H. unfold placeholders_getitem. rewrite with_slide_last.
  cbn [shapes slide_of]. now rewrite H.
Qed.

Lemma add_bullets_second ss L sh0 idx ty ps lines :
  for_each lines (add_bullet {| sh_slide := length ss; sh_pos := 1 |})
    (ss ++ [slide_of L sh0 (shape_of idx ty ps)]) =
  Some (tt, ss ++ [slide_of L sh0 (shape_of idx ty
              (ps ++ map bullet_paragraph
                         (map escape_ctrl
                              (filter Str.truthy (map Str.strip lines)))))]).
Proof. exact (add_bullets_focused ss L [sh0] idx ty [] lines ps). Qed.

Lemma resize_shape_first ss L idx ty ps sh1 :
  (has <- has_text_frame {| sh_slide := length ss; sh_pos := 0 |} ;;
   if has : bool then
     paragraphs <- paragraphs_iter {| sh_slide := length ss; sh_pos := 0 |} ;;
     for_each paragraphs (fun paragraph => set_font_size paragraph SLIDE_FONT_SIZE)
   else ret tt)
    (ss ++ [slide_of L (shape_of idx ty ps) sh1]) =
  Some (tt, ss ++ [slide_of L (shape_of idx ty (map (with_size SLIDE_FONT_SIZE) ps)) sh1]).
Proof. exact (resize_shape_focused ss L [] idx ty [sh1] ps). Qed.

Lemma resize_shape_second ss L idx ty ps sh0 :
  (has <- has_text_frame {| sh_slide := length ss; sh_pos := 1 |} ;;
   if has : bool then
     paragraphs <- paragraphs_iter {| sh_slide := length ss; sh_pos := 1 |} ;;
     for_each paragraphs (fun paragraph => set_font_size paragraph SLIDE_FONT_SIZE)
   else ret tt)
    (ss ++ [slide_of L sh0 (shape_of idx ty ps)]) =
  Some (tt, ss ++ [slide_of L sh0 (shape_of idx ty (map (with_size SLIDE_FONT_SIZE) ps))]).
Proof. exact (resize_shape_focused ss L [sh0] idx ty [] ps). Qed.

Lemma resize_paragraphs_eq ss L i0 t0 ps0 i1 t1 ps1 :
  resize_paragraphs (length ss)
    (ss ++ [slide_of L (shape_of i0 t0 ps0) (shape_of i1 t1 ps1)]) =
  Some (tt, ss ++ [slide_of L
                     (shape_of i0 t0 (map (with_size SLIDE_FONT_SIZE) ps0))
                     (shape_of i1 t1 (map (with_size SLIDE_FONT_SIZE) ps1))]).
Proof.
  unfold resize_paragraphs, shapes_iter.
  rewrite bind_eq, with_slide_last. cbn [read slide_of shapes length seq map for_each].
  rewrite bind_eq.
  rewrite resize_shape_first, bind_eq, resize_shape_second.
  reflexivity.
Qed.

Lemma add_content_slide_eq slide_title first_slide index content ss :
  add_content_slide title_and_content_layout slide_title first_slide
    (index, content) ss =
  Some (false, ss ++ [content_slide slide_title first_slide content]).
Proof.
  unfold add_content_slide.
  rewrite bind_eq. unfold add_slide at 1.
  change (new_slide title_and_content_layout)
    with (slide_of title_and_content_layout
            (shape_of 0 TITLE [empty_paragraph]) (shape_of 1 OBJECT [empty_paragraph])).
  unfold shapes_title.
  rewrite bind_eq, (placeholder_lookup _ _ 0 _ _ 1 _ _ 0 0 eq_refl).
  unfold set_shape_text. rewrite bind_eq, text_frame_first. cbn [update].
  rewrite bind_eq, (placeholder_lookup _ _ 0 _ _ 1 _ _ 1 1 eq_refl).
  unfold text_frame_clear. rewrite bind_eq, text_frame_second.
  rewrite bind_eq, add_bullets_second.
  rewrite bind_eq, (placeholder_lookup _ _ 0 _ _ 1 _ _ 0 0 eq_refl).
  fold (heading slide_title first_slide).
  pose proof (split_not_nil nl (heading slide_title first_slide)) as Hne.
  destruct (Str.split nl (heading slide_title first_slide)) as [|h r] eqn:Eh;
    [congruence|].
  cbn [map]. unfold paragraphs_getitem.
  rewrite bind_eq, text_frame_first. cbn [length Nat.ltb Nat.leb].
  unfold set_font_size. rewrite bind_eq, first_paragraph. cbn [update].
  rewrite bind_eq, resize_paragraphs_eq. cbn [ret].
  unfold content_slide. rewrite Eh. reflexivity.
Qed.

(** ** The loops of [create_presentation] *)

Lemma slides_from_false t chunks :
  slides_from t false chunks = map (content_slide t false) chunks.
Proof. now destruct chunks. Qed.

Lemma for_fold_content_slides t ics : forall first ss,
  for_fold ics first (add_content_slide title_and_content_layout t) ss =
  Some (match ics with [] => first | _ :: _ => false end,
        ss ++ slides_from t first (map snd ics)).
Proof.
  induction ics as [|[i c] r IH]; intros first ss.
  - cbn. now rewrite app_nil_r.
  - cbn [for_fold]. rewrite bind_eq, add_content_slide_eq, IH.
    cbn [map snd slides_from]. rewrite slides_from_false, <- app_assoc.
    now destruct r.
Qed.

Lemma snd_enumerate {A} (l : list A) : map snd (enumerate l) = l.
Proof.
  unfold enumerate. generalize 0.
  induction l as [|x r IH]; intros n; [reflexivity|].
  cbn. now rewrite IH.
Qed.

Lemma add_section_eq t c ss :
  add_section title_and_content_layout (t, c) ss =
  Some (tt, ss ++ section_slides t c).
Proof.
  unfold add_section. rewrite bind_eq, for_fold_content_slides, snd_enumerate.
  reflexivity.
Qed.

Lemma add_sections_eq pairs : forall ss,
  for_each pairs (add_section title_and_content_layout) ss =
  Some (tt, ss ++ flat_map (fun tc => section_slides (fst tc) (snd tc)) pairs).
Proof.
  induction pairs as [|[t c] r IH]; intros ss.
  - cbn. now rewrite app_nil_r.
  - cbn [for_each flat_map fst snd]. rewrite bind_eq, add_section_eq, IH.
    now rewrite <- app_assoc.
Qed.

Lemma slides_of_section_eq t c : slides_of_section t c = section_slides t c.
Proof. unfold slides_of_section. now rewrite add_section_eq. Qed.

Section AssemblerFacts.

Variable upper : str -> str.

Lemma assemble_eq topic titles contents :
  assemble upper topic titles contents [] =
  Some (tt, deck upper topic titles contents).
Proof.
  unfold assemble, slide_layouts_getitem.
  cbn [nth_error slide_layouts of_option].
  rewrite bind_eq. cbn [ret]. rewrite bind_eq. cbn [ret].
  rewrite bind_eq. unfold add_slide at 1.
  change (new_slide title_slide_layout)
    with (slide_of title_slide_layout
            (shape_of 0 CENTER_TITLE [empty_paragraph])
            (shape_of 1 SUBTITLE [empty_paragraph])).
  unfold shapes_title.
  rewrite bind_eq, (placeholder_lookup _ _ 0 _ _ 1 _ _ 0 0 eq_refl).
  unfold set_shape_text. rewrite bind_eq, text_frame_first. cbn [update].
  rewrite bind_eq, (placeholder_lookup _ _ 0 _ _ 1 _ _ 0 0 eq_refl).
  pose proof (split_not_nil nl (upper topic)) as Hne.
  unfold deck, title_slide.
  destruct (Str.split nl (upper topic)) as [|h r] eqn:Eh; [congruence|].
  cbn [map]. unfold paragraphs_getitem.
  rewrite bind_eq, text_frame_first. cbn [length Nat.ltb Nat.leb].
  unfold set_font_bold. rewrite bind_eq, (first_paragraph []). cbn [update].
  rewrite add_sections_eq. reflexivity.
Qed.

Lemma create_presentation_eq topic titles contents :
  create_presentation upper topic titles contents =
  Some (OsPath.join output_dir (file_name topic),
        [Makedirs output_dir true;
         Save (deck upper topic titles contents)
              (OsPath.join output_dir (file_name topic))]).
Proof. unfold create_presentation. now rewrite assemble_eq. Qed.

End AssemblerFacts.

(** ** What the built slides show *)

Lemma text_with_size sz ps : map text (map (with_size sz) ps) = map text ps.
Proof. rewrite map_map. now apply map_ext. Qed.

Lemma escape_ctrl_app a b :
  escape_ctrl (a ++ b) = escape_ctrl a ++ escape_ctrl b.
Proof. apply flat_map_app. Qed.

Lemma escape_ctrl_nl s : escape_ctrl (nl :: s) = nl :: escape_ctrl s.
Proof. reflexivity. Qed.

(** The newline is stored as it is, so storing line by line and storing
    the whole text agree. *)
Lemma escape_ctrl_join l :
  escape_ctrl (Str.join [nl] l) = Str.join [nl] (map escape_ctrl l).
Proof.
  induction l as [|x r IH]; [reflexivity|].
  destruct r as [|y r]; [reflexivity|].
  rewrite join_cons, escape_ctrl_app. cbn [app]. rewrite escape_ctrl_nl, IH.
  reflexivity.
Qed.

Lemma join_escape_split s :
  Str.join [nl] (map escape_ctrl (Str.split nl s)) = escape_ctrl s.
Proof. now rewrite <- escape_ctrl_join, join_split. Qed.

(** A text without control characters is stored verbatim. *)
Lemma escape_ctrl_plain s :
  forallb (fun c => negb (is_ctrl c)) s = true -> escape_ctrl s = s.
Proof.
  induction s as [|c t IH]; [reflexivity|]. cbn [forallb].
  intros H. apply andb_true_iff in H as [Hc Ht].
  apply negb_true_iff in Hc. unfold escape_ctrl. cbn [flat_map].
  unfold escape_char at 1. rewrite Hc. cbn [app]. f_equal. now apply IH.
Qed.

Lemma text_paragraph_of_line ls :
  map text (map paragraph_of_line ls) = map escape_ctrl ls.
Proof. rewrite map_map. now apply map_ext. Qed.

Lemma text_bullet_paragraph ls : map text (map bullet_paragraph ls) = ls.
Proof. rewrite map_map. rewrite <- (map_id ls) at 2. now apply map_ext. Qed.

Lemma title_text_content_slide t f c :
  title_text (content_slide t f c) = escape_ctrl (heading t f).
Proof.
  unfold title_text, title_paragraphs, paragraphs_of, content_slide, text_of.
  cbn [shapes find ph_idx Nat.eqb text_frame].
  now rewrite text_with_size, text_paragraph_of_line, join_escape_split.
Qed.

Lemma body_paragraphs_content_slide t f c :
  body_paragraphs (content_slide t f c) =
  map (with_size SLIDE_FONT_SIZE)
      (empty_paragraph
       :: map bullet_paragraph (map escape_ctrl (bullet_texts c))).
Proof. reflexivity. Qed.

Lemma bullets_of_content_slide t f c :
  bullets_of (content_slide t f c) = map escape_ctrl (bullet_texts c).
Proof.
  unfold bullets_of. rewrite body_paragraphs_content_slide. cbn [map tl].
  now rewrite text_with_size, text_bullet_paragraph.
Qed.

Lemma body_sizes_content_slide t f c :
  Forall (fun p => font_size p = Some (Pt 16))
         (body_paragraphs (content_slide t f c)).
Proof.
  rewrite body_paragraphs_content_slide. apply Forall_map.
  apply Forall_forall. reflexivity.
Qed.

Lemma layout_content_slide t f c :
  layout_name (slide_layout (content_slide t f c)) = "Title and Content"%string.
Proof. reflexivity. Qed.

Lemma slides_from_spec t f chunks (P : Slide -> Prop) :
  (forall f' c, P (content_slide t f' c)) -> Forall P (slides_from t f chunks).
Proof.
  intros H. destruct chunks as [|c r]; [constructor|]. cbn.
  constructor; [apply H|]. apply Forall_map, Forall_forall. intros; apply H.
Qed.

Lemma section_slides_spec t c (P : Slide -> Prop) :
  (forall t' f' c', P (content_slide t' f' c')) -> Forall P (section_slides t c).
Proof. intros H. apply slides_from_spec. intros; apply H. Qed.

Lemma content_slides_spec pairs (P : Slide -> Prop) :
  (forall t f c, P (content_slide t f c)) ->
  Forall P (flat_map (fun tc => section_slides (fst tc) (snd tc)) pairs).
Proof.
  intros H. induction pairs as [|[t c] r IH]; [constructor|].
  cbn [flat_map]. apply Forall_app. split; [|assumption].
  now apply section_slides_spec.
Qed.

Lemma title_paragraphs_title_slide t0 :
  exists p ps,
    title_paragraphs (title_slide t0) = p :: ps
    /\ bold (font p) = Some true /\ font_size p = None
    /\ Forall (fun q => font_size q = None) ps.
Proof.
  unfold title_paragraphs, paragraphs_of, title_slide.
  cbn [shapes find ph_idx Nat.eqb text_frame].
  pose proof (split_not_nil nl t0) as Hne.
  destruct (Str.split nl t0) as [|h r]; [congruence|]. cbn [map].
  eexists _, _. repeat split. apply Forall_map, Forall_forall. reflexivity.
Qed.

Lemma map_title_text_section t c :
  map title_text (section_slides t c)
  = map escape_ctrl (headings t (length (split_content_into_slides c))).
Proof.
  unfold section_slides. destruct (split_content_into_slides c) as [|c0 r];
    [reflexivity|].
  cbn [slides_from map length headings]. rewrite title_text_content_slide.
  cbn [heading]. f_equal. induction r as [|c1 r IH]; [reflexivity|].
  cbn [map length repeat]. now rewrite title_text_content_slide, IH.
Qed.

Lemma map_bullets_section t c :
  map bullets_of (section_slides t c)
  = map (fun chunk => map escape_ctrl (bullet_texts chunk))
        (split_content_into_slides c).
Proof.
  unfold section_slides. destruct (split_content_into_slides c) as [|c0 r];
    [reflexivity|].
  cbn [slides_from map]. rewrite bullets_of_content_slide. f_equal.
  rewrite map_map. apply map_ext. intros; apply bullets_of_content_slide.
Qed.

Lemma length_section_slides t c :
  length (section_slides t c) = length (split_content_into_slides c).
Proof.
  unfold section_slides. destruct (split_content_into_slides c); [reflexivity|].
  cbn. now rewrite length_map.
Qed.

Lemma chunks_from_nil_cons x r : chunks_from [] (x :: r) = chunks_from [x] r.
Proof. reflexivity. Qed.

(** The chunks of any content: full ones, then a last one of 1 to 6 lines. *)
Lemma chunks_shape c :
  exists full last,
    chunks_from [] (sanitized_lines c) = full ++ [last]
    /\ Forall (fun g => length g = MAX_BULLETS_PER_SLIDE) full
    /\ 1 <= length last <= MAX_BULLETS_PER_SLIDE.
Proof.
  pose proof (sanitized_lines_not_nil c) as Hne.
  destruct (sanitized_lines c) as [|x r]; [congruence|].
  rewrite chunks_from_nil_cons. apply chunks_from_shape; [|discriminate].
  unfold MAX_BULLETS_PER_SLIDE. simpl. lia.
Qed.

(** The paginator never returns an empty list. *)
Lemma split_content_not_nil c : split_content_into_slides c <> [].
Proof.
  rewrite split_content_into_slides_chunks.
  destruct (chunks_shape c) as (full & last & E & _).
  rewrite E. now destruct full.
Qed.

Lemma produces_deck upper topic titles contents :
  produces upper topic titles contents
    (OsPath.join output_dir (file_name topic)) (deck upper topic titles contents).
Proof. unfold produces. now rewrite create_presentation_eq. Qed.

(** * The claims *)

(** C5.  [clean_text] is idempotent: for every input string, sanitizing the
    sanitized string gives the sanitized string again. *)
Theorem clean_text_idempotent x : clean_text (clean_text x) = clean_text x.
Proof. now apply (clean_text_idem_length (length x)). Qed.

(** C6, as stated, fails across lines.  In the two-line string made of
    [**a] and [b**] the markers wrap a minimal span, so the claim asks for
    the inner content; [clean_text] returns the string as it is, because
    [.] does not match the newline. *)
Lemma unwraps_across_lines_counterexample :
  ~ Unwraps any_text (lit "**a" ++ nl :: lit "b**")
            (clean_text (lit "**a" ++ nl :: lit "b**")).
Proof.
  assert (E : clean_text (lit "**a" ++ nl :: lit "b**")
              = lit "**a" ++ nl :: lit "b**") by (vm_compute; reflexivity).
  rewrite E. cbn [lit list_ascii_of_string app].
  intros H. inversion H; subst.
  - match goal with
    | Hs : ?i ++ _ :: _ :: _ = _, Ho : ?i ++ _ = _ |- _ =>
        destruct i; simpl in Hs, Ho; [discriminate Hs|];
        injection Hs as -> _; discriminate Ho
    end.
  - match goal with
    | Hno : ~ _ |- _ =>
        apply Hno; exists ("a"%char :: nl :: lit "b"), [];
        split; [exact I | reflexivity]
    end.
Qed.

(** C6, amended.  [clean_text s] is the one string obtained from [s] by
    replacing, from the left, every substring wrapped in double asterisks
    on one line (the opening marker closed by the nearest marker that
    follows it before any newline) by its inner content, and copying
    everything else, unmatched markers included.  On the examples of the
    specification it gives the text without the markers, and the empty
    string for the empty string. *)
Theorem clean_text_unwraps :
  (forall s o, Unwraps one_line s o <-> o = clean_text s)
  /\ clean_text (lit "**Speed**: improves throughput")
     = lit "Speed: improves throughput"
  /\ clean_text (lit "") = lit "".
Proof.
  split; [|split; vm_compute; reflexivity].
  intros s o. split.
  - apply unwraps_clean_text.
  - intros ->. now apply (clean_text_unwraps_length (length s)).
Qed.

(** C3.  Pagination is a lossless, order-preserving partition: the chunks
    joined by newlines are the sanitized lines of the input joined by
    newlines, and the lines of the chunks, read in output order, are
    exactly the input lines passed through [clean_text], in input order. *)
Theorem pagination_lossless content :
  Str.join [nl] (split_content_into_slides content)
  = Str.join [nl] (map clean_text (Str.split nl content))
  /\ flat_map (Str.split nl) (split_content_into_slides content)
     = map clean_text (Str.split nl content).
Proof.
  fold (sanitized_lines content). rewrite split_content_into_slides_chunks.
  pose proof (chunks_from_concat (sanitized_lines content) []) as Hc.
  simpl app in Hc. split.
  - rewrite join_concat by apply chunks_from_nil_not_nil. now rewrite Hc.
  - rewrite flat_map_concat_map, map_map. rewrite <- Hc at 2. f_equal.
    rewrite <- map_id. apply map_ext_in. intros g Hg. apply split_join.
    + pose proof (chunks_from_nil_not_nil (sanitized_lines content)) as Hf.
      rewrite Forall_forall in Hf. now apply Hf.
    + now apply (chunks_sanitized_one_line content).
Qed.

Lemma chunks_of_14 (l : list str) :
  length l = 14 -> map (@length str) (chunks_from [] l) = [6; 6; 2].
Proof.
  intros H. do 15 (destruct l as [|? l]; try discriminate H). reflexivity.
Qed.

Lemma chunks_of_7 (l : list str) :
  length l = 7 -> map (@length str) (chunks_from [] l) = [6; 1].
Proof.
  intros H. do 8 (destruct l as [|? l]; try discriminate H). reflexivity.
Qed.

(** C4.  Every chunk has at most 6 lines; the chunks are full chunks of
    exactly 6 lines followed by one last chunk; an input of 14 lines
    gives three chunks, of 6, 6 and 2 lines. *)
Theorem chunk_sizes content :
  Forall (fun chunk => line_count chunk <= 6) (split_content_into_slides content)
  /\ (exists full last,
        split_content_into_slides content = full ++ [last]
        /\ Forall (fun chunk => line_count chunk = 6) full)
  /\ (length (Str.split nl content) = 14 ->
      map line_count (split_content_into_slides content) = [6; 6; 2]).
Proof.
  pose proof (line_counts content) as Hlc.
  destruct (chunks_shape content) as (full & last & E & Hfull & Hlast).
  unfold MAX_BULLETS_PER_SLIDE in *.
  split; [|split].
  - apply Forall_map with (f := line_count) (P := fun n => n <= 6).
    rewrite Hlc, E. apply Forall_map, Forall_app. split.
    + eapply Forall_impl; [|exact Hfull]. intros g Hg. cbv beta in *. lia.
    + constructor; [lia | constructor].
  - exists (map (Str.join [nl]) full), (Str.join [nl] last). split.
    + rewrite split_content_into_slides_chunks, E, map_app. reflexivity.
    + apply Forall_map with (f := line_count) (P := fun n => n = 6).
      rewrite split_content_into_slides_chunks, E in Hlc.
      rewrite !map_app in Hlc. apply app_inj_tail in Hlc as [Hlc _].
      rewrite Hlc. now apply Forall_map.
  - intros H14. rewrite Hlc. apply chunks_of_14.
    unfold sanitized_lines. now rewrite length_map.
Qed.

(** C4 at an input of 14 empty lines. *)
Lemma chunk_sizes_witness :
  map line_count (split_content_into_slides (repeat nl 13)) = [6; 6; 2].
Proof. apply (proj2 (proj2 (chunk_sizes (repeat nl 13)))). reflexivity. Defined.




Lemma zip_skipn (l l' : list str) k :
  zip (skipn k l) (skipn k l') = skipn k (zip l l').
Proof.
  unfold zip. revert l l'. induction k as [|k IH]; intros l l'; [reflexivity|].
  destruct l as [|x l]; [reflexivity|].
  destruct l' as [|y l']; [now rewrite combine_nil|].
  cbn [skipn combine]. apply IH.
Qed.

Lemma map_of_flat_map {A B C} (f : B -> C) (g : A -> list B) l :
  map f (flat_map g l) = flat_map (fun x => map f (g x)) l.
Proof.
  induction l as [|x r IH]; [reflexivity|].
  cbn [flat_map]. now rewrite map_app, IH.
Qed.

(** The headings and the bullets of the content slides, section by
    section. *)
Lemma content_slides_show pairs :
  map title_text (flat_map (fun tc => section_slides (fst tc) (snd tc)) pairs)
  = flat_map (fun tc =>
      map escape_ctrl
          (headings (fst tc) (length (split_content_into_slides (snd tc)))))
      pairs
  /\ map bullets_of (flat_map (fun tc => section_slides (fst tc) (snd tc)) pairs)
     = flat_map (fun tc =>
         map (fun chunk => map escape_ctrl (bullet_texts chunk))
             (split_content_into_slides (snd tc)))
         pairs.
Proof.
  rewrite !map_of_flat_map. split; apply flat_map_ext; intros [t c]; cbn [fst snd].
  - apply map_title_text_section.
  - apply map_bullets_section.
Qed.

Section DeckClaims.

Variable upper : str -> str.


(** C1, amended.  In the deck [create_presentation] saves, every body
    paragraph of every content slide has font size 16pt; the title of the
    Title Slide gets no font size, and its first paragraph is bold. *)
Theorem body_font_sizes topic titles contents :
  exists path ts cs,
    produces upper topic titles contents path (ts :: cs)
    /\ Forall (fun sl => Forall (fun p => font_size p = Some (Pt 16))
                                (body_paragraphs sl)) cs
    /\ Forall (fun p => font_size p = None) (title_paragraphs ts)
    /\ exists p ps, title_paragraphs ts = p :: ps /\ bold (font p) = Some true.
Proof.
  eexists _, _, _. split; [apply produces_deck|]. split; [|split].
  - apply content_slides_spec. intros; apply body_sizes_content_slide.
  - destruct (title_paragraphs_title_slide (upper topic))
      as (p & ps & -> & _ & Hp & Hps). now constructor.
  - destruct (title_paragraphs_title_slide (upper topic))
      as (p & ps & E & Hb & _). eauto.
Qed.

(** C2, amended.  With an empty titles list the deck holds the Title Slide
    and nothing else; for a pair whose content is the empty string the
    deck holds exactly one content slide, between the slides of the
    earlier pairs and those of the later pairs, headed by the pair's title
    as python-pptx stores it and without any bullet. *)
Theorem degraded_decks topic :
  (forall contents, exists path ts,
      produces upper topic [] contents path [ts]
      /\ layout_name (slide_layout ts) = "Title Slide"%string)
  /\ (forall titles contents i t,
        nth_error (zip titles contents) i = Some (t, lit "") ->
        exists path before sl ts after,
          produces upper topic titles contents path (before ++ sl :: after)
          /\ produces upper topic (firstn i titles) (firstn i contents)
                      path before
          /\ produces upper topic (skipn (S i) titles) (skipn (S i) contents)
                      path (ts :: after)
          /\ layout_name (slide_layout sl) = "Title and Content"%string
          /\ title_text sl = escape_ctrl t
          /\ bullets_of sl = []).
Proof.
  split.
  - intros contents. eexists _, _. split; [apply produces_deck | reflexivity].
  - intros titles contents i t Hi.
    destruct (nth_error_split _ _ Hi) as (l1 & l2 & Ez & Hl1).
    exists (OsPath.join output_dir (file_name topic)),
           (deck upper topic (firstn i titles) (firstn i contents)),
           (content_slide t true []),
           (title_slide (upper topic)),
           (flat_map (fun tc => section_slides (fst tc) (snd tc)) l2).
    split; [|split; [apply produces_deck|split; [|split; [reflexivity|split]]]].
    + unfold produces. rewrite create_presentation_eq. do 4 f_equal.
      unfold deck. change (zip (firstn i titles) (firstn i contents))
        with (combine (firstn i titles) (firstn i contents)).
      rewrite <- combine_firstn. fold (zip titles contents). rewrite Ez.
      rewrite <- Hl1, firstn_app, Nat.sub_diag, firstn_all, firstn_O, app_nil_r.
      rewrite flat_map_app. reflexivity.
    + unfold produces. rewrite create_presentation_eq. do 4 f_equal.
      unfold deck. rewrite zip_skipn, Ez. f_equal. f_equal.
      rewrite <- Hl1.
      replace (S (length l1)) with (length (l1 ++ [(t, lit "")]))
        by (rewrite length_app; simpl; lia).
      change (l1 ++ (t, lit "") :: l2) with (l1 ++ [(t, lit "")] ++ l2).
      rewrite app_assoc. now rewrite skipn_app, skipn_all, Nat.sub_diag.
    + apply title_text_content_slide.
    + reflexivity.
Qed.

(** C9, amended.  Let the pair number [i] be [(t, c)], with [c] paginated
    into at least two chunks.  The deck is the deck of the earlier pairs,
    then one slide per chunk of [c], in chunk order, then the later
    sections; the slide of chunk 0 is headed by [t] and every later slide
    of the section by [t] followed by [(contd.)], both as python-pptx
    stores them: verbatim when [t] has no control character, and with each
    such character spelled [_xHHHH_] otherwise. *)
Theorem continuation_headings topic titles contents i t c :
  nth_error (zip titles contents) i = Some (t, c) ->
  2 <= length (split_content_into_slides c) ->
  exists path before first rest after,
    produces upper topic titles contents path (before ++ first :: rest ++ after)
    /\ produces upper topic (firstn i titles) (firstn i contents) path before
    /\ map bullets_of (first :: rest)
       = map (fun chunk => map escape_ctrl (bullet_texts chunk))
             (split_content_into_slides c)
    /\ title_text first = escape_ctrl t
    /\ Forall (fun sl => title_text sl = escape_ctrl (t ++ lit " (contd.)")) rest
    /\ (forallb (fun ch => negb (is_ctrl ch)) t = true ->
        title_text first = t
        /\ Forall (fun sl => title_text sl = t ++ lit " (contd.)") rest).
Proof.
  intros Hi Hk.
  destruct (nth_error_split _ _ Hi) as (l1 & l2 & Ez & Hl1).
  pose proof (map_title_text_section t c) as Ht.
  pose proof (map_bullets_section t c) as Hb.
  destruct (section_slides t c) as [|first rest] eqn:Es.
  { destruct (split_content_into_slides c); [simpl in Hk; lia | discriminate Ht]. }
  assert (Hh : title_text first = escape_ctrl t
               /\ Forall (fun sl => title_text sl
                                    = escape_ctrl (t ++ lit " (contd.)")) rest).
  { destruct (length (split_content_into_slides c)) as [|k]; [lia|].
    cbn [headings map] in Ht. injection Ht as Hf Hr. split; [assumption|].
    clear -Hr. revert k Hr. induction rest as [|s r IH]; intros k Hr; [constructor|].
    destruct k; [discriminate|]. cbn in Hr. injection Hr as Hs Hr.
    constructor; eauto. }
  destruct Hh as [Hf Hr].
  exists (OsPath.join output_dir (file_name topic)),
         (deck upper topic (firstn i titles) (firstn i contents)),
         first, rest,
         (flat_map (fun tc => section_slides (fst tc) (snd tc)) l2).
  split; [|split; [apply produces_deck|split; [exact Hb|split; [exact Hf|split; [exact Hr|]]]]].
  - unfold produces. rewrite create_presentation_eq. do 4 f_equal.
    unfold deck. change (zip (firstn i titles) (firstn i contents))
      with (combine (firstn i titles) (firstn i contents)).
    rewrite <- combine_firstn. fold (zip titles contents). rewrite Ez.
    rewrite <- Hl1, firstn_app, Nat.sub_diag, firstn_all, firstn_O, app_nil_r.
    rewrite flat_map_app. cbn [flat_map fst snd]. rewrite Es.
    reflexivity.
  - intros Hp.
    assert (Hc : forallb (fun ch => negb (is_ctrl ch)) (t ++ lit " (contd.)") = true)
      by (rewrite forallb_app, Hp; reflexivity).
    rewrite (escape_ctrl_plain _ Hp) in Hf.
    rewrite (escape_ctrl_plain _ Hc) in Hr. now split.
Qed.

(** C10.  The deck starts with the Title Slide and has no other slide of
    that layout; the content slides follow section by section in the
    order of the titles, each section giving one slide per chunk in
    paginator order, headed by the title and then by its continuation
    heading and carrying the bullets of its chunk; with 2 titles whose
    contents have 7 lines each, the deck has 5 slides and each section has
    a chunk of 6 lines and a chunk of 1. *)
Theorem deck_order topic titles contents :
  exists path ts cs,
    produces upper topic titles contents path (ts :: cs)
    /\ layout_name (slide_layout ts) = "Title Slide"%string
    /\ Forall (fun sl => layout_name (slide_layout sl)
                         = "Title and Content"%string) cs
    /\ map title_text cs
       = flat_map (fun tc =>
           map escape_ctrl
               (headings (fst tc)
                  (length (split_content_into_slides (snd tc)))))
           (zip titles contents)
    /\ map bullets_of cs
       = flat_map (fun tc =>
           map (fun chunk => map escape_ctrl (bullet_texts chunk))
               (split_content_into_slides (snd tc)))
           (zip titles contents)
    /\ (length titles = 2 -> length contents = 2 ->
        Forall (fun c => length (Str.split nl c) = 7) contents ->
        length (ts :: cs) = 5
        /\ Forall (fun c => map line_count (split_content_into_slides c) = [6; 1])
                  contents).
Proof.
  eexists _, _, _. split; [apply produces_deck|].
  destruct (content_slides_show (zip titles contents)) as [Hmt Hmb].
  split; [reflexivity|]. split; [|split; [exact Hmt|split; [exact Hmb|]]].
  - apply content_slides_spec. intros; apply layout_content_slide.
  - intros Ht Hc H7.
    assert (Hs : Forall (fun c => map line_count (split_content_into_slides c)
                                   = [6; 1]) contents).
    { eapply Forall_impl; [|exact H7]. intros c Hc7. cbv beta in Hc7.
      rewrite line_counts. apply chunks_of_7.
      unfold sanitized_lines. now rewrite length_map. }
    split; [|exact Hs].
    destruct titles as [|t1 [|t2 [|? ?]]]; try discriminate Ht.
    destruct contents as [|c1 [|c2 [|? ?]]]; try discriminate Hc.
    inversion Hs as [|? ? H1 Hs']; subst. inversion Hs' as [|? ? H2 _]; subst.
    apply (f_equal (@length nat)) in H1, H2. rewrite length_map in H1, H2.
    cbn [zip combine flat_map fst snd length].
    rewrite !length_app, !length_section_slides, H1, H2. reflexivity.
Qed.

(** C8, amended.  [create_presentation] asks for the directory
    [generated_ppt] (no error if it exists), saves the deck under
    [os.path.join] of that directory and the file name, and returns that
    path.  The file name is the topic with every space character, and no
    other whitespace, replaced by an underscore, followed by
    [_presentation.pptx].  When the topic does not begin with a slash the
    path is inside [generated_ppt]; for the topic [AI Ethics] it ends in
    [AI_Ethics_presentation.pptx]. *)
Theorem output_path topic titles contents :
  let name := map (fun c => if ascii_dec c " " then "_"%char else c) topic
              ++ lit "_presentation.pptx" in
  exists path d,
    produces upper topic titles contents path d
    /\ path = OsPath.join (lit "generated_ppt") name
    /\ (OsPath.startswith_sep topic = false ->
        path = lit "generated_ppt/" ++ name)
    /\ (topic = lit "AI Ethics" ->
        path = lit "generated_ppt/" ++ lit "AI_Ethics_presentation.pptx").
Proof.
  intros name. eexists _, _. split; [apply produces_deck|].
  assert (En : file_name topic = name).
  { subst name. unfold file_name, Str.replace. f_equal. apply map_ext. intros c.
    destruct (ascii_dec c " ") as [->|Hc]; [reflexivity|].
    apply Ascii.eqb_neq in Hc. now rewrite Hc. }
  rewrite En. split; [reflexivity|]. split.
  - intros Hs. unfold OsPath.join.
    assert (Hn : OsPath.startswith_sep name = false).
    { subst name. destruct topic as [|c r]; [reflexivity|]. cbn in *.
      destruct (ascii_dec c " ") as [->|]; [reflexivity | assumption]. }
    rewrite Hn. reflexivity.
  - intros ->. reflexivity.
Qed.

End DeckClaims.

(** C1, as stated, fails.  For one section, the title of the Title Slide
    has no font size at all, and the title of the content slide ends at
    16pt: [resize_paragraphs] visits the title shape too, after the title
    was set to 30pt. *)
Lemma title_font_size_counterexample :
  exists path d,
    produces ascii_upper (lit "Hi") [lit "T"] [lit "x"] path d
    /\ map (fun sl => map font_size (title_paragraphs sl)) d
       = [[None]; [Some (Pt 16)]]
    /\ ~ fonts_as_stated d.
Proof.
  eexists _, _. split; [apply produces_deck|]. split; [reflexivity|].
  intros H. destruct (H _ (or_introl eq_refl)) as [Ht _].
  inversion Ht as [|? ? Hp _]. discriminate Hp.
Qed.

(** C2, as stated, fails on empty content: the empty string is one empty
    line, hence one chunk and one content slide. *)
Lemma empty_content_counterexample :
  exists path d,
    produces ascii_upper (lit "Hi") [lit "T"] [lit ""] path d
    /\ length d = 2
    /\ slides_of_section (lit "T") (lit "") <> [].
Proof.
  eexists _, _. split; [apply produces_deck|]. split; [reflexivity|].
  rewrite slides_of_section_eq. discriminate.
Qed.

(** C8, as stated, fails twice: a tab in the topic is kept, and a topic
    that begins with a slash leaves the output directory. *)
Lemma output_path_counterexample :
  (exists path d,
      produces ascii_upper ("a"%char :: tab :: lit "b") [] [] path d
      /\ path = lit "generated_ppt/a" ++ tab :: lit "b_presentation.pptx"
      /\ path <> path_as_stated ("a"%char :: tab :: lit "b"))
  /\ (exists path d,
        produces ascii_upper (lit "/a") [] [] path d
        /\ path = lit "/a_presentation.pptx"
        /\ path <> path_as_stated (lit "/a")).
Proof.
  split; eexists _, _; (split; [apply produces_deck|]);
    (split; [reflexivity | discriminate]).
Qed.

(** C9, as stated, fails on a title with a control character: the
    heading read back from the slide spells the carriage return
    [_x000D_]. *)
Lemma verbatim_heading_counterexample :
  exists path d first second,
    produces ascii_upper (lit "Hi") ["a"%char :: ascii_of_nat 13 :: lit "b"]
             [repeat nl 6] path d
    /\ nth_error d 1 = Some first /\ nth_error d 2 = Some second
    /\ title_text first = lit "a_x000D_b"
    /\ title_text second = lit "a_x000D_b (contd.)"
    /\ title_text first <> "a"%char :: ascii_of_nat 13 :: lit "b".
Proof.
  eexists _, _, _, _. split; [apply produces_deck|].
  split; [reflexivity|]. split; [reflexivity|].
  split; [reflexivity|]. split; [reflexivity | discriminate].
Qed.

(** C9, amended, on one section of seven empty lines. *)
Lemma continuation_headings_witness :
  exists path before first rest after,
    produces ascii_upper (lit "Hi") [lit "T"] [repeat nl 6] path
             (before ++ first :: rest ++ after)
    /\ produces ascii_upper (lit "Hi") (firstn 0 [lit "T"])
                (firstn 0 [repeat nl 6]) path before
    /\ title_text first = lit "T"
    /\ Forall (fun sl => title_text sl = lit "T" ++ lit " (contd.)") rest.
Proof.
  destruct (continuation_headings ascii_upper (lit "Hi") [lit "T"] [repeat nl 6]
              0 (lit "T") (repeat nl 6) eq_refl)
    as (path & before & first & rest & after & Hp & Hb & _ & _ & _ & Hv).
  - vm_compute. lia.
  - exists path, before, first, rest, after.
    split; [exact Hp|]. split; [exact Hb|]. exact (Hv eq_refl).
Defined.

(** C2, amended, on one pair with empty content. *)
Lemma degraded_decks_witness :
  exists path before sl ts after,
    produces ascii_upper (lit "Hi") [lit "T"] [lit ""] path
             (before ++ sl :: after)
    /\ produces ascii_upper (lit "Hi") [] [] path before
    /\ produces ascii_upper (lit "Hi") [] [] path (ts :: after)
    /\ title_text sl = lit "T" /\ bullets_of sl = [].
Proof.
  destruct (proj2 (degraded_decks ascii_upper (lit "Hi"))
              [lit "T"] [lit ""] 0 (lit "T") eq_refl)
    as (path & before & sl & ts & after & H1 & H2 & H3 & _ & H4 & H5).
  exists path, before, sl, ts, after. repeat split; assumption.
Defined.

(** C8, amended, on the topic of the specification. *)
Lemma output_path_witness :
  exists path d,
    produces ascii_upper (lit "AI Ethics") [] [] path d
    /\ path = lit "generated_ppt/" ++ lit "AI_Ethics_presentation.pptx".
Proof.
  destruct (output_path ascii_upper (lit "AI Ethics") [] [])
    as (path & d & Hp & _ & _ & He).
  exists path, d. split; [exact Hp | exact (He eq_refl)].
Defined.

(** C10 on two sections of seven lines each. *)
Lemma deck_order_witness :
  exists path ts cs,
    produces ascii_upper (lit "Rust Ownership")
             [lit "Borrowing"; lit "Lifetimes"]
             [repeat nl 6; lit "a" ++ repeat nl 6] path (ts :: cs)
    /\ length (ts :: cs) = 5.
Proof.
  destruct (deck_order ascii_upper (lit "Rust Ownership")
              [lit "Borrowing"; lit "Lifetimes"]
              [repeat nl 6; lit "a" ++ repeat nl 6])
    as (path & ts & cs & Hp & _ & _ & _ & _ & He).
  exists path, ts, cs. split; [exact Hp|].
  apply He; [reflexivity | reflexivity |].
  repeat constructor.
Defined.

(** * Further properties *)

(** ** More on the sanitizer and the paginator *)

Lemma marker_app_line r b :
  ~ In nl r ->
  Re.marker (r ++ nl :: b)
  = match Re.marker r with Some rest => Some (rest ++ nl :: b) | None => None end.
Proof.
  intros _. destruct r as [|c1 [|c2 r]]; simpl.
  - now destruct b.
  - now rewrite andb_false_r.
  - now destruct ((c1 =? star)%char && (c2 =? star)%char).
Qed.

Lemma lazy_group_app_line r b :
  ~ In nl r ->
  Re.lazy_group (r ++ nl :: b)
  = match Re.lazy_group r with
    | Some (g, rest) => Some (g, rest ++ nl :: b)
    | None => None
    end.
Proof.
  induction r as [|c t IH]; intros Hr.
  - simpl app. rewrite lazy_group_eq, marker_cons. reflexivity.
  - rewrite (lazy_group_eq ((c :: t) ++ nl :: b)).
    rewrite (marker_app_line (c :: t) b Hr), (lazy_group_eq (c :: t)).
    destruct (Re.marker (c :: t)) as [rest|] eqn:Em; [reflexivity|].
    assert (En : (c =? nl)%char = false).
    { apply Ascii.eqb_neq. intros ->. apply Hr. now left. }
    cbn [app]. rewrite En, IH by (intros Hin; apply Hr; now right).
    now destruct (Re.lazy_group t) as [[g rest]|].
Qed.

Lemma match_here_app_line a b :
  ~ In nl a ->
  Re.match_here (a ++ nl :: b)
  = match Re.match_here a with
    | Some (g, rest) => Some (g, rest ++ nl :: b)
    | None => None
    end.
Proof.
  intros Ha. unfold Re.match_here. rewrite (marker_app_line a b Ha).
  destruct (Re.marker a) as [r|] eqn:Em; [|reflexivity].
  apply lazy_group_app_line. apply marker_inv in Em. subst a.
  intros Hin. apply Ha. now right; right.
Qed.

(** A match never reaches over the end of its line. *)
Lemma clean_text_app_line_length n : forall a b,
  length a <= n -> ~ In nl a ->
  clean_text (a ++ nl :: b) = clean_text a ++ nl :: clean_text b.
Proof.
  induction n as [|n IH]; intros a b L Ha.
  - destruct a; [|simpl in L; lia]. now apply clean_text_not_star.
  - destruct a as [|c t]; [now apply clean_text_not_star|].
    pose proof (match_here_app_line (c :: t) b Ha) as Hm.
    destruct (Re.match_here (c :: t)) as [[g rest]|] eqn:E.
    + rewrite (clean_text_match _ _ _ Hm), (clean_text_match _ _ _ E).
      pose proof (match_here_length _ _ _ E) as L'.
      rewrite IH; [now rewrite app_assoc | simpl in *; lia |].
      intros Hin. apply Ha. rewrite (match_here_inv _ _ _ E).
      right; right. apply in_or_app. right. now right; right.
    + simpl app in *. rewrite (clean_text_copy _ _ Hm), (clean_text_copy _ _ E).
      simpl. f_equal. apply IH; [simpl in L; lia|].
      intros Hin. apply Ha. now right.
Qed.

Lemma first_newline s :
  In nl s -> exists a b, s = a ++ nl :: b /\ ~ In nl a.
Proof.
  induction s as [|c t IH]; intros H; [destruct H|].
  destruct (ascii_dec c nl) as [->|Hc].
  - exists [], t. split; [reflexivity | intros []].
  - destruct H as [H|H]; [congruence|].
    destruct (IH H) as (a & b & -> & Ha). exists (c :: a), b.
    split; [reflexivity|]. intros [E|Hin]; [congruence | now apply Ha].
Qed.

Lemma split_clean_text_length n : forall s,
  length s <= n ->
  Str.split nl (clean_text s) = map clean_text (Str.split nl s).
Proof.
  induction n as [|n IH]; intros s L.
  - destruct s; [reflexivity | simpl in L; lia].
  - destruct (in_dec ascii_dec nl s) as [Hin|Hno].
    + destruct (first_newline s Hin) as (a & b & -> & Ha).
      rewrite (clean_text_app_line_length (length a)) by (lia || assumption).
      rewrite !split_app_sep by (assumption || now apply clean_text_one_line).
      cbn [map]. f_equal. apply IH. rewrite length_app in L. simpl in L. lia.
    + rewrite !split_sep_free by (assumption || now apply clean_text_one_line).
      reflexivity.
Qed.

Lemma clean_text_length_le n : forall s,
  length s <= n -> length (clean_text s) <= length s.
Proof.
  induction n as [|n IH]; intros s L.
  - destruct s; [simpl; lia | simpl in L; lia].
  - destruct s as [|c t]; [simpl; lia|].
    destruct (Re.match_here (c :: t)) as [[g rest]|] eqn:E.
    + rewrite (clean_text_match _ _ _ E).
      pose proof (match_here_length _ _ _ E) as L'.
      assert (Hr : length (clean_text rest) <= length rest)
        by (apply IH; simpl in *; lia).
      rewrite (match_here_inv _ _ _ E). rewrite !length_app. simpl.
      rewrite length_app. simpl. lia.
    + rewrite (clean_text_copy _ _ E). simpl.
      assert (Ht : length (clean_text t) <= length t)
        by (apply IH; simpl in *; lia).
      lia.
Qed.

Lemma clean_text_no_marker s :
  (forall a b, s <> a ++ star :: star :: b) -> clean_text s = s.
Proof.
  induction s as [|c t IH]; intros H; [reflexivity|].
  rewrite clean_text_copy.
  - f_equal. apply IH. intros a b E. apply (H (c :: a) b). simpl. now rewrite E.
  - apply match_here_no_marker.
    destruct (Re.marker (c :: t)) as [r|] eqn:Em; [|reflexivity].
    apply marker_inv in Em. exfalso. now apply (H [] r).
Qed.

Lemma chunks_from_length l : forall current,
  1 <= length current <= MAX_BULLETS_PER_SLIDE ->
  length (chunks_from current l) = (length current + length l + 5) / 6.
Proof.
  unfold MAX_BULLETS_PER_SLIDE.
  induction l as [|x r IH]; intros current L.
  - destruct current as [|c0 cur]; [simpl in L; lia|].
    cbn [chunks_from length]. simpl length in L.
    rewrite Nat.add_0_r.
    assert (H : (S (length cur) + 5) / 6 = 1).
    { symmetry. apply Nat.div_unique with (r := length cur); lia. }
    now rewrite H.
  - cbn [chunks_from].
    destruct (length current <? MAX_BULLETS_PER_SLIDE) eqn:E;
      unfold MAX_BULLETS_PER_SLIDE in E.
    + apply Nat.ltb_lt in E. rewrite IH by (rewrite length_app; simpl; lia).
      rewrite length_app. cbn [length]. f_equal. lia.
    + apply Nat.ltb_ge in E. cbn [length]. rewrite IH by (simpl; lia).
      assert (Hc : length current = 6) by lia. rewrite Hc. cbn [length].
      replace (6 + S (length r) + 5) with (1 + length r + 5 + 1 * 6) by lia.
      rewrite Nat.div_add by lia. lia.
Qed.

Lemma split_length sep s :
  length (Str.split sep s) = S (count_occ ascii_dec s sep).
Proof.
  induction s as [|c t IH]; [reflexivity|].
  rewrite split_cons. pose proof (split_not_nil sep t) as Hne.
  destruct (Str.split sep t) as [|h r]; [congruence|].
  simpl count_occ. destruct (ascii_dec c sep) as [->|Hc].
  - rewrite Ascii.eqb_refl. simpl in *. lia.
  - apply Ascii.eqb_neq in Hc. rewrite Hc. simpl in *. lia.
Qed.

(** X1.  Sanitizing commutes with cutting into lines: the lines of the
    sanitized text are the sanitized lines of the text, so sanitizing a
    whole content and sanitizing it line by line, as the paginator does,
    give the same result. *)
Theorem clean_text_line_by_line s :
  Str.split nl (clean_text s) = map clean_text (Str.split nl s)
  /\ clean_text s = Str.join [nl] (map clean_text (Str.split nl s)).
Proof.
  pose proof (split_clean_text_length (length s) s (le_n _)) as H.
  split; [exact H|]. rewrite <- H. symmetry. apply join_split.
Qed.

Lemma marker_free_spec s :
  marker_free s = true -> forall a b, s <> a ++ star :: star :: b.
Proof.
  induction s as [|c t IH]; intros H a b E.
  - destruct a; discriminate E.
  - simpl in H. apply andb_true_iff in H as [H1 H2].
    destruct a as [|x a]; simpl in E.
    + injection E as -> ->. discriminate H1.
    + injection E as _ E. now apply (IH H2 a b).
Qed.

(** X2.  [clean_text] only removes markers: its result is no longer than
    its input, holds no character the input does not hold, and is the
    input itself when the input has no two asterisks in a row. *)
Theorem clean_text_only_removes_markers s :
  length (clean_text s) <= length s
  /\ (forall x, In x (clean_text s) -> In x s)
  /\ ((forall a b, s <> a ++ star :: star :: b) -> clean_text s = s).
Proof.
  split; [now apply (clean_text_length_le (length s))|]. split.
  - intros x. now apply (clean_text_incl_length (length s)).
  - apply clean_text_no_marker.
Qed.

(** X2 on a text with single asterisks only. *)
Lemma clean_text_only_removes_markers_witness :
  clean_text (lit "a*b *c*") = lit "a*b *c*".
Proof.
  apply (proj2 (proj2 (clean_text_only_removes_markers (lit "a*b *c*")))).
  now apply marker_free_spec.
Defined.

(** X3.  The number of chunks of a content is its number of lines divided
    by 6 and rounded up, the number of lines being one more than the
    number of newlines; so there is always at least one chunk. *)
Theorem chunk_count content :
  length (split_content_into_slides content)
  = (length (Str.split nl content) + 5) / 6
  /\ length (Str.split nl content) = S (count_occ ascii_dec content nl)
  /\ 1 <= length (split_content_into_slides content).
Proof.
  assert (H : length (split_content_into_slides content)
              = (length (Str.split nl content) + 5) / 6).
  { rewrite split_content_into_slides_chunks, length_map.
    pose proof (sanitized_lines_not_nil content) as Hne.
    assert (Hl : length (sanitized_lines content) = length (Str.split nl content))
      by (unfold sanitized_lines; apply length_map).
    rewrite <- Hl. destruct (sanitized_lines content) as [|x r]; [congruence|].
    rewrite chunks_from_nil_cons, chunks_from_length
      by (unfold MAX_BULLETS_PER_SLIDE; simpl; lia).
    reflexivity. }
  split; [exact H|]. split; [apply split_length|].
  pose proof (split_content_not_nil content).
  destruct (split_content_into_slides content); [congruence | simpl; lia].
Qed.

(** ** [str.strip] *)

Lemma lstrip_fix s : edge_ok s = true -> Str.lstrip s = s.
Proof.
  destruct s as [|c t]; [reflexivity|]. simpl. intros H.
  apply negb_true_iff in H. now rewrite H.
Qed.

Lemma edge_ok_lstrip s : edge_ok (Str.lstrip s) = true.
Proof.
  induction s as [|c t IH]; [reflexivity|]. simpl.
  destruct (Str.isspace c) eqn:E; [assumption|]. simpl. now rewrite E.
Qed.

Lemma lstrip_app_last a c :
  Str.isspace c = false -> Str.lstrip (a ++ [c]) = Str.lstrip a ++ [c].
Proof.
  intros Hc. induction a as [|x a IH]; simpl.
  - now rewrite Hc.
  - destruct (Str.isspace x); [assumption | reflexivity].
Qed.

Lemma edge_ok_rstrip u : edge_ok u = true -> edge_ok (Str.rstrip u) = true.
Proof.
  destruct u as [|c t]; [reflexivity|]. simpl. intros H.
  apply negb_true_iff in H. unfold Str.rstrip. simpl rev.
  rewrite lstrip_app_last, rev_app_distr by assumption. simpl. now rewrite H.
Qed.

Lemma strip_stripped s : stripped (Str.strip s).
Proof.
  unfold stripped, Str.strip. split.
  - apply edge_ok_rstrip, edge_ok_lstrip.
  - unfold Str.rstrip. rewrite rev_involutive. apply edge_ok_lstrip.
Qed.

Lemma stripped_strip s : stripped s -> Str.strip s = s.
Proof.
  intros [H1 H2]. unfold Str.strip, Str.rstrip.
  now rewrite (lstrip_fix s H1), (lstrip_fix _ H2), rev_involutive.
Qed.

Lemma strip_idem s : Str.strip (Str.strip s) = Str.strip s.
Proof. apply stripped_strip, strip_stripped. Qed.

(** ** More on the deck *)

Lemma section_slides_chunks_spec t c (P : Slide -> Prop) :
  (forall f chunk, In chunk (split_content_into_slides c) ->
                   P (content_slide t f chunk)) ->
  Forall P (section_slides t c).
Proof.
  intros H. unfold section_slides.
  destruct (split_content_into_slides c) as [|c0 r]; [constructor|].
  cbn [slides_from]. constructor; [apply H; now left|].
  apply Forall_map, Forall_forall. intros x Hx. apply H. now right.
Qed.

Lemma content_slides_chunks_spec pairs (P : Slide -> Prop) :
  (forall t f c chunk, In chunk (split_content_into_slides c) ->
                       P (content_slide t f chunk)) ->
  Forall P (flat_map (fun tc => section_slides (fst tc) (snd tc)) pairs).
Proof.
  intros H. induction pairs as [|[t c] r IH]; [constructor|].
  cbn [flat_map]. apply Forall_app. split; [|assumption].
  apply section_slides_chunks_spec. intros f chunk. apply H.
Qed.

Lemma line_count_le c chunk :
  In chunk (split_content_into_slides c) -> line_count chunk <= 6.
Proof.
  intros Hin. apply (in_map line_count) in Hin. rewrite line_counts in Hin.
  destruct (chunks_shape c) as (full & last & E & Hfull & Hlast).
  rewrite E in Hin. apply in_map_iff in Hin as (g & <- & Hg).
  unfold MAX_BULLETS_PER_SLIDE in *. apply in_app_or in Hg as [Hg|[<-|[]]].
  - rewrite Forall_forall in Hfull. rewrite (Hfull g Hg). lia.
  - lia.
Qed.

Lemma bullet_texts_length chunk : length (bullet_texts chunk) <= line_count chunk.
Proof.
  unfold bullet_texts, line_count.
  rewrite <- (length_map Str.strip (Str.split nl chunk)). apply filter_length_le.
Qed.

Lemma bullet_texts_spec chunk :
  Forall (fun t => t <> [] /\ Str.strip t = t) (bullet_texts chunk).
Proof.
  unfold bullet_texts. apply Forall_forall. intros t Ht.
  apply filter_In in Ht as [Hin Htr]. split.
  - now destruct t.
  - apply in_map_iff in Hin as (l & <- & _). apply strip_idem.
Qed.

(** Spelling the control characters keeps a text non-empty and free of
    whitespace at its ends. *)
Lemma escape_ctrl_not_nil s : s <> [] -> escape_ctrl s <> [].
Proof.
  destruct s as [|c t]; [congruence|]. intros _.
  unfold escape_ctrl. cbn [flat_map]. unfold escape_char.
  destruct (is_ctrl c); discriminate.
Qed.

Lemma edge_ok_escape s : edge_ok s = true -> edge_ok (escape_ctrl s) = true.
Proof.
  destruct s as [|c t]; [reflexivity|].
  unfold escape_ctrl. cbn [flat_map edge_ok]. unfold escape_char.
  destruct (is_ctrl c); [reflexivity | easy].
Qed.

Lemma edge_ok_rev_escape s :
  edge_ok (rev s) = true -> edge_ok (rev (escape_ctrl s)) = true.
Proof.
  destruct s as [|d a _] using rev_ind; [reflexivity|].
  rewrite rev_app_distr, escape_ctrl_app, rev_app_distr.
  cbn [rev app edge_ok]. unfold escape_ctrl. cbn [flat_map].
  rewrite app_nil_r. unfold escape_char.
  destruct (is_ctrl d); [reflexivity | easy].
Qed.

Lemma stripped_escape s : stripped s -> stripped (escape_ctrl s).
Proof.
  intros [H1 H2]. split; [now apply edge_ok_escape | now apply edge_ok_rev_escape].
Qed.

Lemma title_paragraphs_content_slide t f c :
  title_paragraphs (content_slide t f c)
  = map (with_size SLIDE_FONT_SIZE)
        (map paragraph_of_line (Str.split nl (heading t f))).
Proof. reflexivity. Qed.

Lemma length_flat_map_sections pairs :
  length (flat_map (fun tc => section_slides (fst tc) (snd tc)) pairs)
  = list_sum (map (fun tc => (length (Str.split nl (snd tc)) + 5) / 6) pairs).
Proof.
  induction pairs as [|[t c] r IH]; [reflexivity|].
  cbn [flat_map map list_sum fst snd]. rewrite length_app, IH.
  rewrite length_section_slides. f_equal.
  rewrite split_content_into_slides_chunks, length_map.
  pose proof (sanitized_lines_not_nil c) as Hne.
  assert (Hl : length (sanitized_lines c) = length (Str.split nl c))
    by (unfold sanitized_lines; apply length_map).
  rewrite <- Hl. destruct (sanitized_lines c) as [|x l]; [congruence|].
  rewrite chunks_from_nil_cons, chunks_from_length
    by (unfold MAX_BULLETS_PER_SLIDE; simpl; lia).
  reflexivity.
Qed.

Lemma basename_app a b :
  basename (a ++ b)
  = fold_left (fun acc c => if (c =? OsPath.sep)%char then [] else acc ++ [c])
              b (basename a).
Proof. unfold basename. apply fold_left_app. Qed.

Lemma fold_basename_no_sep n : forall acc,
  ~ In OsPath.sep n ->
  fold_left (fun acc c => if (c =? OsPath.sep)%char then [] else acc ++ [c]) n acc
  = acc ++ n.
Proof.
  induction n as [|c r IH]; intros acc H; simpl.
  - now rewrite app_nil_r.
  - assert (Hc : (c =? OsPath.sep)%char = false).
    { apply Ascii.eqb_neq. intros ->. apply H. now left. }
    rewrite Hc, IH by (intros Hin; apply H; now right).
    now rewrite <- app_assoc.
Qed.

Lemma basename_under dir n :
  ~ In OsPath.sep n -> basename (dir ++ OsPath.sep :: n) = n.
Proof.
  intros H. rewrite basename_app. cbn [fold_left]. rewrite Ascii.eqb_refl.
  now rewrite fold_basename_no_sep.
Qed.

Lemma replace_no_old old new s : old <> new -> ~ In old (Str.replace old new s).
Proof.
  intros Hn Hin. unfold Str.replace in Hin. apply in_map_iff in Hin as (c & E & _).
  destruct (c =? old)%char eqn:Ec; [congruence|].
  apply Ascii.eqb_neq in Ec. congruence.
Qed.

Lemma replace_keeps_absent x old new s :
  x <> new -> ~ In x s -> ~ In x (Str.replace old new s).
Proof.
  intros Hn Hs Hin. unfold Str.replace in Hin.
  apply in_map_iff in Hin as (c & E & Hc).
  destruct (c =? old)%char; [congruence|]. subst. contradiction.
Qed.

Section MoreDeckFacts.

Variable upper : str -> str.

(** X4.  On every content slide of the saved deck the body starts with the
    empty paragraph [text_frame.clear()] leaves, followed by at most 6
    bullets; every bullet has a non-empty text without whitespace at
    either end, level 0, left alignment and 8pt of space after it. *)
Theorem bullets_format topic titles contents :
  exists path ts cs,
    produces upper topic titles contents path (ts :: cs)
    /\ Forall (fun sl =>
         exists p0 bullets,
           body_paragraphs sl = p0 :: bullets
           /\ text p0 = []
           /\ length bullets <= 6
           /\ Forall (fun p => text p <> [] /\ Str.strip (text p) = text p
                               /\ level p = 0 /\ alignment p = Some LEFT
                               /\ space_after p = Some (Pt 8)) bullets) cs.
Proof.
  eexists _, _, _. split; [apply produces_deck|].
  apply content_slides_chunks_spec. intros t f c chunk Hin.
  rewrite body_paragraphs_content_slide. cbn [map].
  eexists _, _. split; [reflexivity|]. split; [reflexivity|]. split.
  - rewrite !length_map. pose proof (bullet_texts_length chunk).
    pose proof (line_count_le c chunk Hin). lia.
  - apply Forall_map, Forall_map, Forall_map.
    eapply Forall_impl; [|apply bullet_texts_spec].
    intros a [Ha Hs]. cbn [text level alignment space_after bullet_paragraph].
    split; [now apply escape_ctrl_not_nil|]. split; [|repeat split].
    apply stripped_strip, stripped_escape. rewrite <- Hs. apply strip_stripped.
Qed.

(** X5.  On every content slide of the saved deck the title has at least
    one paragraph and all its paragraphs end at font size 16pt: the loop
    over the shapes of the slide resizes the title after it was set to
    [TITLE_FONT_SIZE]. *)
Theorem content_titles_resized topic titles contents :
  exists path ts cs,
    produces upper topic titles contents path (ts :: cs)
    /\ Forall (fun sl =>
         title_paragraphs sl <> []
         /\ Forall (fun p => font_size p = Some (Pt 16)) (title_paragraphs sl)) cs.
Proof.
  eexists _, _, _. split; [apply produces_deck|].
  apply content_slides_spec. intros t f c.
  rewrite title_paragraphs_content_slide. split.
  - pose proof (split_not_nil nl (heading t f)).
    destruct (Str.split nl (heading t f)); [congruence | discriminate].
  - apply Forall_map, Forall_forall. reflexivity.
Qed.

(** X6.  The saved deck has one slide more than the sum, over the paired
    titles and contents, of the content's number of lines divided by 6 and
    rounded up; hence at least one slide per pair besides the Title
    Slide. *)
Theorem deck_size topic titles contents :
  exists path d,
    produces upper topic titles contents path d
    /\ length d
       = 1 + list_sum (map (fun tc => (length (Str.split nl (snd tc)) + 5) / 6)
                           (zip titles contents))
    /\ 1 + Nat.min (length titles) (length contents) <= length d.
Proof.
  eexists _, _. split; [apply produces_deck|].
  unfold deck. cbn [length]. rewrite length_flat_map_sections.
  split; [reflexivity|].
  unfold zip. rewrite <- length_combine.
  induction (combine titles contents) as [|[t c] r IH]; [simpl; lia|].
  cbn [map list_sum length snd].
  assert (H : 1 <= (length (Str.split nl c) + 5) / 6).
  { pose proof (split_not_nil nl c). destruct (Str.split nl c) as [|x l];
      [congruence|]. cbn [length].
    replace (S (length l) + 5) with (length l + 1 * 6) by lia.
    rewrite Nat.div_add by lia. lia. }
  unfold list_sum in *. cbn [fold_right]. lia.
Qed.

(** X7.  The returned path never contains a space; when the topic has no
    slash, the base name of the path is the topic with its spaces replaced
    by underscores, followed by [_presentation.pptx]. *)
Theorem path_shape topic titles contents :
  exists path d,
    produces upper topic titles contents path d
    /\ ~ In " "%char path
    /\ (~ In "/"%char topic ->
        basename path = Str.replace " " "_" topic ++ lit "_presentation.pptx").
Proof.
  eexists _, _. split; [apply produces_deck|].
  assert (Hn : ~ In " "%char (file_name topic)).
  { unfold file_name. intros Hin. apply in_app_or in Hin as [Hin|Hin].
    - revert Hin. now apply replace_no_old.
    - revert Hin. cbn. intuition discriminate. }
  split.
  - unfold OsPath.join.
    destruct (OsPath.startswith_sep (file_name topic)); [assumption|].
    cbn [negb Str.truthy output_dir lit list_ascii_of_string orb OsPath.endswith_sep].
    intros Hin. apply in_app_or in Hin as [Hin|Hin].
    + revert Hin. cbn. intuition discriminate.
    + apply in_app_or in Hin as [Hin|Hin]; [|contradiction].
      revert Hin. cbn. intuition discriminate.
  - intros Hs.
    assert (Hf : ~ In OsPath.sep (file_name topic)).
    { unfold file_name. intros Hin. apply in_app_or in Hin as [Hin|Hin].
      - revert Hin. apply replace_keeps_absent; [discriminate | assumption].
      - revert Hin. cbn. intuition discriminate. }
    unfold OsPath.join.
    assert (Hst : OsPath.startswith_sep (file_name topic) = false).
    { destruct (file_name topic) as [|c r] eqn:E; [reflexivity|]. simpl.
      apply Ascii.eqb_neq. intros ->. apply Hf. now left. }
    rewrite Hst. cbn [negb Str.truthy output_dir lit list_ascii_of_string orb].
    change (OsPath.endswith_sep _) with false. cbn iota.
    exact (basename_under _ (file_name topic) Hf).
Qed.

(** X8.  The title of the Title Slide reads the upper-cased topic as
    python-pptx stores it, line breaks included: verbatim when the
    upper-cased topic has no control character, each such character
    spelled [_xHHHH_] otherwise; its subtitle placeholder keeps its one
    empty paragraph. *)
Theorem title_slide_text topic titles contents :
  exists path ts cs,
    produces upper topic titles contents path (ts :: cs)
    /\ title_text ts = escape_ctrl (upper topic)
    /\ (forallb (fun ch => negb (is_ctrl ch)) (upper topic) = true ->
        title_text ts = upper topic)
    /\ map text (body_paragraphs ts) = [[]].
Proof.
  eexists _, _, _. split; [apply produces_deck|].
  assert (Ht : title_text (title_slide (upper topic)) = escape_ctrl (upper topic)).
  { unfold title_text, title_paragraphs, paragraphs_of, title_slide, text_of.
    cbn [shapes find ph_idx Nat.eqb text_frame].
    rewrite <- (join_escape_split (upper topic)).
    pose proof (split_not_nil nl (upper topic)) as Hne.
    destruct (Str.split nl (upper topic)) as [|h r]; [congruence|].
    cbn [map]. f_equal. cbn [text with_bold with_font paragraph_of_line].
    f_equal. apply text_paragraph_of_line. }
  split; [exact Ht|]. split; [|reflexivity].
  intros Hp. rewrite Ht. now apply escape_ctrl_plain.
Qed.

End MoreDeckFacts.

(** X7 on the topic [AI Ethics]. *)
Lemma path_shape_witness :
  exists path d,
    produces ascii_upper (lit "AI Ethics") [] [] path d
    /\ basename path = lit "AI_Ethics_presentation.pptx".
Proof.
  destruct (path_shape ascii_upper (lit "AI Ethics") [] [])
    as (path & d & Hp & _ & Hb).
  exists path, d. split; [exact Hp|]. apply Hb.
  cbn. intuition discriminate.
Defined.

(** ** The titles of an answer *)

Lemma lstrip_incl s x : In x (Str.lstrip s) -> In x s.
Proof.
  induction s as [|c t IH]; [trivial|]. simpl.
  destruct (Str.isspace c); [intros H; right; now apply IH | trivial].
Qed.

Lemma strip_incl s x : In x (Str.strip s) -> In x s.
Proof.
  unfold Str.strip, Str.rstrip. intros H. apply in_rev in H.
  apply lstrip_incl in H. apply in_rev in H. now apply lstrip_incl.
Qed.

Lemma lstrip_blank s : forallb Str.isspace s = true -> Str.lstrip s = [].
Proof.
  induction s as [|c t IH]; [reflexivity|]. simpl.
  intros H. apply andb_true_iff in H as [Hc Ht]. now rewrite Hc, IH.
Qed.

Lemma stripped_iff s : Str.strip s = s <-> stripped s.
Proof.
  split; [intros <-; apply strip_stripped | apply stripped_strip].
Qed.

Lemma edge_ok_app a b : a <> [] -> edge_ok (a ++ b) = edge_ok a.
Proof. now destruct a. Qed.

Lemma join_not_nil sep x r : x <> [] -> Str.join sep (x :: r) <> [].
Proof. destruct r; [trivial|]. rewrite join_cons. now destruct x. Qed.

Lemma join_stripped l :
  Forall title_line l -> l <> [] -> stripped (Str.join [nl] l).
Proof.
  induction l as [|x r IH]; intros Hf Hne; [congruence|].
  inversion Hf as [|? ? (Hx & Hs & _) Hr]; subst.
  apply stripped_iff in Hs. destruct Hs as [H1 H2].
  destruct r as [|y r]; [now split|].
  destruct (IH Hr) as [I1 I2]; [discriminate|].
  rewrite join_cons. split.
  - now rewrite edge_ok_app.
  - rewrite !rev_app_distr, <- app_assoc. rewrite edge_ok_app; [assumption|].
    intros E. apply (f_equal (@rev ascii)) in E. rewrite rev_involutive in E.
    revert E. apply join_not_nil. inversion Hr as [|? ? (Hy & _) _]. assumption.
Qed.

Lemma filter_all {A} (f : A -> bool) l :
  Forall (fun x => f x = true) l -> filter f l = l.
Proof.
  induction 1 as [|x r Hx _ IH]; [reflexivity|]. simpl. now rewrite Hx, IH.
Qed.

Lemma map_fix {A} (f : A -> A) l :
  Forall (fun x => f x = x) l -> map f l = l.
Proof.
  induction 1 as [|x r Hx _ IH]; [reflexivity|]. simpl. now rewrite Hx, IH.
Qed.

(** X9.  An answer made of well-formed titles, one per line, is parsed
    back into exactly those titles, in order: [generate_slide_titles]
    loses nothing of such an answer. *)
Theorem parse_titles_join titles :
  Forall title_line titles -> parse_titles (Str.join [nl] titles) = titles.
Proof.
  intros Hf. destruct titles as [|t r]; [reflexivity|].
  unfold parse_titles.
  rewrite (stripped_strip _ (join_stripped _ Hf ltac:(discriminate))).
  rewrite split_join;
    [| discriminate
     | eapply Forall_impl; [|exact Hf]; now intros a (_ & _ & Ha)].
  rewrite filter_all.
  - apply map_fix. eapply Forall_impl; [|exact Hf]. now intros a (_ & Ha & _).
  - eapply Forall_impl; [|exact Hf]. intros a (Ha & Hs & _). cbv beta.
    rewrite Hs. now destruct a.
Qed.

(** X9 on two titles. *)
Lemma parse_titles_join_witness :
  parse_titles (Str.join [nl] [lit "Borrowing"; lit "Life times"])
  = [lit "Borrowing"; lit "Life times"].
Proof.
  apply parse_titles_join.
  repeat constructor; try discriminate; cbn; intuition discriminate.
Defined.

(** X10.  Whatever the answer, every parsed title is non-empty, has no
    whitespace at either end and no newline; there are at most as many
    titles as lines in the answer, and an answer of whitespace only gives
    no title. *)
Theorem parse_titles_lines text :
  Forall title_line (parse_titles text)
  /\ length (parse_titles text) <= length (Str.split nl text)
  /\ (forallb Str.isspace text = true -> parse_titles text = []).
Proof.
  split; [|split].
  - unfold parse_titles. apply Forall_map, Forall_forall. intros l Hl.
    apply filter_In in Hl as [Hin Htr]. split; [|split].
    + now destruct (Str.strip l).
    + apply strip_idem.
    + intros Hnl. apply strip_incl in Hnl.
      pose proof (split_lines_sep_free nl (Str.strip text)) as Hf.
      rewrite Forall_forall in Hf. now apply (Hf l).
  - unfold parse_titles. rewrite length_map.
    etransitivity; [apply filter_length_le|].
    rewrite !split_length. apply le_n_S.
    unfold Str.strip, Str.rstrip.
    assert (Hl : forall s, count_occ ascii_dec (Str.lstrip s) nl
                           <= count_occ ascii_dec s nl).
    { induction s as [|c t IH]; [apply le_n|]. simpl Str.lstrip.
      destruct (Str.isspace c); [|apply le_n].
      simpl count_occ. destruct (ascii_dec c nl); lia. }
    assert (Hr : forall s, count_occ ascii_dec (rev s) nl
                           = count_occ ascii_dec s nl).
    { intros s. induction s as [|c t IH]; [reflexivity|]. simpl rev.
      rewrite count_occ_app, IH. simpl. destruct (ascii_dec c nl); lia. }
    rewrite Hr. etransitivity; [apply Hl|]. rewrite Hr. apply Hl.
  - intros Hb. unfold parse_titles, Str.strip.
    now rewrite (lstrip_blank _ Hb).
Qed.

(** X10 on an answer of blanks and newlines. *)
Lemma parse_titles_lines_witness : parse_titles (lit "  " ++ [nl; nl]) = [].
Proof.
  apply (proj2 (proj2 (parse_titles_lines (lit "  " ++ [nl; nl])))).
  reflexivity.
Defined.

(** ** Base64 *)

Lemma digit_in n : n < 64 -> In (Base64.digit n) Base64.alphabet.
Proof. intros H. apply nth_In. exact H. Qed.

Lemma value_digit n : n < 64 -> value (Base64.digit n) = n.
Proof.
  intros H. do 64 (destruct n as [|n]; [reflexivity|]). lia.
Qed.

Lemma digit_not_pad n : n < 64 -> (Base64.digit n =? Base64.pad)%char = false.
Proof.
  intros H. do 64 (destruct n as [|n]; [reflexivity|]). lia.
Qed.

Lemma alphabet_no_dquote c : In c Base64.alphabet -> c <> dquote.
Proof.
  assert (H : forallb (fun x => negb (x =? dquote)%char) Base64.alphabet = true)
    by (vm_compute; reflexivity).
  rewrite forallb_forall in H. intros Hin ->. specialize (H _ Hin).
  now rewrite Ascii.eqb_refl in H.
Qed.

Lemma sextets x y z :
  x < 256 -> y < 256 -> z < 256 ->
  x / 4 < 64 /\ x mod 4 * 16 + y / 16 < 64
  /\ y mod 16 * 4 + z / 64 < 64 /\ z mod 64 < 64
  /\ x mod 4 * 16 < 64 /\ y mod 16 * 4 < 64.
Proof.
  intros Hx Hy Hz.
  pose proof (Nat.mod_upper_bound x 4 ltac:(lia)).
  pose proof (Nat.mod_upper_bound y 16 ltac:(lia)).
  pose proof (Nat.mod_upper_bound z 64 ltac:(lia)).
  assert (x / 4 < 64) by (apply Nat.Div0.div_lt_upper_bound; lia).
  assert (y / 16 < 16) by (apply Nat.Div0.div_lt_upper_bound; lia).
  assert (z / 64 < 4) by (apply Nat.Div0.div_lt_upper_bound; lia).
  lia.
Qed.

Lemma bytes_back x y z :
  x < 256 -> y < 256 -> z < 256 ->
  x / 4 * 4 + (x mod 4 * 16 + y / 16) / 16 = x
  /\ (x mod 4 * 16 + y / 16) mod 16 * 16 + (y mod 16 * 4 + z / 64) / 4 = y
  /\ (y mod 16 * 4 + z / 64) mod 4 * 64 + z mod 64 = z.
Proof.
  intros Hx Hy Hz.
  assert (y / 16 < 16) by (apply Nat.Div0.div_lt_upper_bound; lia).
  assert (z / 64 < 4) by (apply Nat.Div0.div_lt_upper_bound; lia).
  rewrite (Nat.add_comm (x mod 4 * 16)), (Nat.add_comm (y mod 16 * 4)).
  rewrite !Nat.div_add, !Nat.Div0.mod_add by lia.
  rewrite (Nat.div_small (y / 16)), (Nat.div_small (z / 64)) by lia.
  rewrite (Nat.mod_small (y / 16)), (Nat.mod_small (z / 64)) by lia.
  pose proof (Nat.div_mod_eq x 4). pose proof (Nat.div_mod_eq y 16).
  pose proof (Nat.div_mod_eq z 64). lia.
Qed.

Lemma b64_induction (P : list ascii -> Prop) :
  P [] -> (forall a, P [a]) -> (forall a b, P [a; b]) ->
  (forall a b c r, P r -> P (a :: b :: c :: r)) ->
  forall l, P l.
Proof.
  intros H0 H1 H2 H3 l.
  assert (H : forall n l, length l <= n -> P l).
  { induction n as [|n IH]; intros l' L.
    - destruct l'; [exact H0 | simpl in L; lia].
    - destruct l' as [|a [|b [|c r]]]; auto.
      apply H3. apply IH. simpl in L. lia. }
  now apply (H (length l)).
Qed.

Ltac b64_chars :=
  repeat (apply Forall_cons;
          [first [left; apply digit_in; assumption | right; reflexivity]|]);
  first [apply Forall_nil | assumption].

(** The encoding has 4 characters for every 3 bytes, rounded up, all from
    the alphabet or the padding, and none of them the double quote. *)
Lemma b64encode_chars data :
  length (Base64.b64encode data) = 4 * ((length data + 2) / 3)
  /\ Forall (fun c => In c Base64.alphabet \/ c = Base64.pad)
            (Base64.b64encode data)
  /\ ~ In dquote (Base64.b64encode data).
Proof.
  assert (H : length (Base64.b64encode data) = 4 * ((length data + 2) / 3)
              /\ Forall (fun c => In c Base64.alphabet \/ c = Base64.pad)
                        (Base64.b64encode data)).
  { induction data as [|a|a b|a b c r [IHl IHf]] using b64_induction.
    - split; [reflexivity | constructor].
    - split; [reflexivity|].
      destruct (sextets (nat_of_ascii a) 0 0) as (? & _ & _ & _ & ? & _);
        try apply nat_ascii_bounded; try lia.
      cbn [Base64.b64encode]. b64_chars.
    - split; [reflexivity|].
      destruct (sextets (nat_of_ascii a) (nat_of_ascii b) 0)
        as (? & ? & _ & _ & _ & ?); try apply nat_ascii_bounded; try lia.
      cbn [Base64.b64encode]. b64_chars.
    - destruct (sextets (nat_of_ascii a) (nat_of_ascii b) (nat_of_ascii c))
        as (? & ? & ? & ? & _); try apply nat_ascii_bounded.
      cbn [Base64.b64encode]. split.
      + cbn [length]. rewrite IHl.
        replace (S (S (S (length r))) + 2) with (length r + 2 + 1 * 3) by lia.
        rewrite Nat.div_add by lia. lia.
      + b64_chars. }
  destruct H as [Hl Hf]. split; [exact Hl|]. split; [exact Hf|].
  intros Hin. rewrite Forall_forall in Hf.
  destruct (Hf _ Hin) as [Ha|Hp]; [now apply (alphabet_no_dquote dquote)|].
  discriminate Hp.
Qed.

(** Decoding the encoding gives the bytes back. *)
Lemma b64decode_encode data : b64decode (Base64.b64encode data) = data.
Proof.
  induction data as [|a|a b|a b c r IH] using b64_induction.
  - reflexivity.
  - pose proof (nat_ascii_bounded a) as Ha.
    destruct (sextets (nat_of_ascii a) 0 0) as (? & _ & _ & _ & ? & _);
      try assumption; try lia.
    destruct (bytes_back (nat_of_ascii a) 0 0) as (E & _); try assumption; try lia.
    cbn [Base64.b64encode b64decode]. rewrite !Ascii.eqb_refl.
    rewrite !value_digit by assumption.
    rewrite Nat.add_0_r in E. rewrite E. now rewrite ascii_nat_embedding.
  - pose proof (nat_ascii_bounded a) as Ha. pose proof (nat_ascii_bounded b) as Hb.
    destruct (sextets (nat_of_ascii a) (nat_of_ascii b) 0)
      as (? & ? & _ & _ & _ & ?); try assumption; try lia.
    destruct (bytes_back (nat_of_ascii a) (nat_of_ascii b) 0) as (E1 & E2 & _);
      try assumption; try lia.
    cbn [Base64.b64encode b64decode]. rewrite Ascii.eqb_refl.
    rewrite digit_not_pad by assumption.
    rewrite !value_digit by assumption.
    rewrite Nat.add_0_r in E2. rewrite E1, E2.
    now rewrite !ascii_nat_embedding.
  - pose proof (nat_ascii_bounded a) as Ha. pose proof (nat_ascii_bounded b) as Hb.
    pose proof (nat_ascii_bounded c) as Hc.
    destruct (sextets (nat_of_ascii a) (nat_of_ascii b) (nat_of_ascii c))
      as (? & ? & ? & ? & _); try assumption.
    destruct (bytes_back (nat_of_ascii a) (nat_of_ascii b) (nat_of_ascii c))
      as (E1 & E2 & E3); try assumption.
    cbn [Base64.b64encode b64decode].
    rewrite digit_not_pad by assumption.
    rewrite !value_digit by assumption.
    rewrite E1, E2, E3, IH. now rewrite !ascii_nat_embedding.
Qed.

(** ** [get_ppt_download_link] *)

Lemma lookup_head path data fs : lookup path ((path, data) :: fs) = Some data.
Proof. cbn. now destruct (list_eq_dec ascii_dec path path). Qed.

Lemma until_dquote_app p r : ~ In dquote p -> until_dquote (p ++ dquote :: r) = p.
Proof.
  induction p as [|c p IH]; intros H.
  - cbn [app until_dquote]. now rewrite Ascii.eqb_refl.
  - cbn [app until_dquote].
    assert (Hc : (c =? dquote)%char = false).
    { apply Ascii.eqb_neq. intros ->. apply H. now left. }
    rewrite Hc. f_equal. apply IH. intros Hin. apply H. now right.
Qed.

Lemma href_payload_anchor payload name :
  ~ In dquote payload -> href_payload (download_anchor payload name) = payload.
Proof.
  intros H. unfold href_payload, download_anchor.
  change (lit "<a href=" ++ [dquote]
          ++ lit "data:application/vnd.openxmlformats-officedocument.presentationml.presentation;base64,"
          ++ payload ++ [dquote] ++ lit " download=" ++ [dquote] ++ name
          ++ [dquote] ++ lit ">Download the PowerPoint Presentation</a>")
    with (href_header
          ++ payload ++ dquote :: (lit " download=" ++ [dquote] ++ name
          ++ [dquote] ++ lit ">Download the PowerPoint Presentation</a>")).
  rewrite skipn_app, skipn_all, Nat.sub_diag. cbn [app skipn].
  now apply until_dquote_app.
Qed.

Lemma get_ppt_download_link_eq fs_ok path w :
  get_ppt_download_link fs_ok path w
  = if fs_ok (Read path) then
      match lookup path (files w) with
      | Some data =>
          (Some (download_anchor (Base64.b64encode data) (basename path)), w)
      | None => (None, w)
      end
    else (None, w).
Proof.
  unfold get_ppt_download_link, read_file, io_bind, io_ret.
  destruct (fs_ok (Read path)); [|reflexivity].
  now destruct (lookup path (files w)).
Qed.

(** X11.  When the operating system lets the file be read,
    [get_ppt_download_link] returns, without touching the world, the
    anchor whose download name is the base name of the path and whose
    [href] carries a payload of 4 characters for every 3 bytes of the
    file, rounded up, all from the base64 alphabet or the padding sign;
    no character of the payload is the double quote, so the quote that
    closes the [href] is the one the code wrote after the payload. *)
Theorem download_link_shape fs_ok path data w :
  fs_ok (Read path) = true ->
  lookup path (files w) = Some data ->
  exists payload,
    get_ppt_download_link fs_ok path w
    = (Some (download_anchor payload (basename path)), w)
    /\ length payload = 4 * ((length data + 2) / 3)
    /\ Forall (fun c => In c Base64.alphabet \/ c = Base64.pad) payload
    /\ ~ In dquote payload
    /\ href_payload (download_anchor payload (basename path)) = payload.
Proof.
  intros Hr Hf. exists (Base64.b64encode data).
  rewrite get_ppt_download_link_eq, Hr, Hf.
  destruct (b64encode_chars data) as (Hl & Ha & Hq).
  split; [reflexivity|]. split; [exact Hl|]. split; [exact Ha|].
  split; [exact Hq|]. now apply href_payload_anchor.
Qed.

(** X12.  The link [get_ppt_download_link] returns carries the file
    unchanged: the payload of its [href], decoded, is the contents of the
    file, byte for byte; and the call raises, leaving the world as it
    was, exactly when the read is refused or there is no such file. *)
Theorem download_link_round_trip fs_ok path w :
  (forall data,
      fs_ok (Read path) = true ->
      lookup path (files w) = Some data ->
      exists link,
        get_ppt_download_link fs_ok path w = (Some link, w)
        /\ b64decode (href_payload link) = data)
  /\ (fst (get_ppt_download_link fs_ok path w) = None
      <-> fs_ok (Read path) = false \/ lookup path (files w) = None)
  /\ snd (get_ppt_download_link fs_ok path w) = w.
Proof.
  rewrite get_ppt_download_link_eq. split; [|split].
  - intros data Hr Hf. rewrite Hr, Hf. eexists. split; [reflexivity|].
    destruct (b64encode_chars data) as (_ & _ & Hq).
    rewrite href_payload_anchor by exact Hq. apply b64decode_encode.
  - destruct (fs_ok (Read path)).
    + destruct (lookup path (files w)); cbn [fst]; split.
      * discriminate.
      * intros [H|H]; discriminate.
      * now right.
      * reflexivity.
    + cbn [fst]. split; [now left | reflexivity].
  - destruct (fs_ok (Read path)); [|reflexivity].
    now destruct (lookup path (files w)).
Qed.

(** ** [main] *)

Lemma io_bind_eq {A B} (m : IO A) (k : A -> IO B) w :
  io_bind m k w = match m w with
                  | (Some a, w') => k a w'
                  | (None, w') => (None, w')
                  end.
Proof. reflexivity. Qed.

Section MainFacts.

Variable upper : str -> str.
Variable serialize : Presentation -> list ascii.


Lemma contents_of_cons reply first t ts :
  contents_of reply first (t :: ts)
  = Str.strip (reply first (content_prompt t)) :: contents_of reply (S first) ts.
Proof.
  unfold contents_of. cbn [length seq map nth]. rewrite Nat.add_0_r. f_equal.
  rewrite <- seq_shift, map_map. apply map_ext. intros i. cbn [nth].
  now rewrite Nat.add_succ_r.
Qed.

Lemma io_map_contents reply titles : forall w,
  io_map (generate_slide_content (fun n p => Some (reply n p))) titles w
  = (Some (contents_of reply (length (prompts w)) titles),
     {| prompts := prompts w ++ map content_prompt titles;
        files := files w; ui := ui w |}).
Proof.
  induction titles as [|t ts IH]; intros w.
  - cbn. rewrite app_nil_r. now destruct w.
  - cbn [io_map]. rewrite io_bind_eq.
    unfold generate_slide_content at 1. rewrite io_bind_eq.
    unfold generate_content at 1. cbn [io_ret].
    rewrite io_bind_eq, IH. cbn [prompts files ui io_ret map].
    rewrite contents_of_cons, length_app, <- app_assoc. cbn [length app].
    now rewrite Nat.add_1_r.
Qed.


Lemma run_create_presentation_eq fs_ok topic titles contents w :
  run_create_presentation upper serialize fs_ok topic titles contents w
  = let path := OsPath.join output_dir (file_name topic) in
    let d := deck upper topic titles contents in
    if fs_ok (Makedirs output_dir true) then
      if fs_ok (Save d path) then
        (Some path, {| prompts := prompts w;
                       files := (path, serialize d) :: files w;
                       ui := ui w |})
      else (None, w)
    else (None, w).
Proof.
  unfold run_create_presentation. rewrite create_presentation_eq.
  cbn [io_for_each]. rewrite !io_bind_eq. unfold perform at 1.
  destruct (fs_ok (Makedirs output_dir true)); [|reflexivity].
  rewrite io_bind_eq. unfold perform at 1.
  destruct (fs_ok (Save _ _)); reflexivity.
Qed.

(** X13.  When the button is pressed on a non-empty topic, the model
    answers every request and the file system carries out every request,
    [main] asks for the titles and then for one content per parsed title,
    in order; it builds the deck from those titles and as many contents,
    saves it, and shows the info message, the success message and a link
    whose payload encodes the saved bytes and whose download name is the
    base name of the saved path. *)
Theorem main_succeeds reply topic w :
  topic <> [] ->
  let first := length (prompts w) in
  let titles := parse_titles (reply first (titles_prompt topic)) in
  let contents := contents_of reply (S first) titles in
  exists path d,
    produces upper topic titles contents path d
    /\ length contents = length titles
    /\ main upper (fun n p => Some (reply n p)) serialize (fun _ => true)
            topic true w
       = (Some tt,
          {| prompts := prompts w ++ titles_prompt topic
                                     :: map content_prompt titles;
             files := (path, serialize d) :: files w;
             ui := ui w ++ widgets
                   ++ [info; success;
                       UiMarkdown (download_anchor
                                     (Base64.b64encode (serialize d))
                                     (basename path)) true] |}).
Proof.
  intros Ht first titles contents.
  eexists _, _. split; [apply produces_deck|]. split.
  - subst contents. unfold contents_of. now rewrite length_map, length_seq.
  - assert (Hg : true && Str.truthy topic = true) by now destruct topic.
    unfold main, generate_slide_titles, generate_content, io_bind, show, io_ret.
    rewrite Hg. cbn [prompts files ui]. fold first. fold titles.
    rewrite io_map_contents. cbn [prompts files ui].
    rewrite length_app. cbn [length]. rewrite Nat.add_1_r. fold contents.
    rewrite run_create_presentation_eq. cbv beta zeta iota.
    unfold get_ppt_download_link, read_file, io_bind, io_ret.
    cbn [prompts files ui]. rewrite lookup_head.
    unfold widgets. cbn [prompts files ui]. rewrite <- !app_assoc. reflexivity.
Qed.


End MainFacts.

(** X13 on a model that always answers with one title. *)
Lemma main_succeeds_witness :
  exists path d,
    main ascii_upper (fun _ _ => Some (lit "Borrowing")) (fun _ => []) (fun _ => true)
         (lit "Rust") true empty_world
    = (Some tt,
       {| prompts := [titles_prompt (lit "Rust"); content_prompt (lit "Borrowing")];
          files := [(path, [])];
          ui := widgets
                ++ [info; success;
                    UiMarkdown (download_anchor [] (basename path)) true] |})
    /\ produces ascii_upper (lit "Rust") [lit "Borrowing"] [lit "Borrowing"] path d.
Proof.
  destruct (main_succeeds ascii_upper (fun _ => []) (fun _ _ => lit "Borrowing")
              (lit "Rust") empty_world ltac:(discriminate))
    as (path & d & Hp & _ & Hm).
  exists path, d. split; [exact Hm | exact Hp].
Defined.


(** X11 on a file of three bytes. *)
Lemma download_link_shape_witness :
  exists payload,
    get_ppt_download_link (fun _ => true) (lit "generated_ppt/a.pptx")
      {| prompts := []; files := [(lit "generated_ppt/a.pptx", lit "abc")];
         ui := [] |}
    = (Some (download_anchor payload (lit "a.pptx")),
       {| prompts := []; files := [(lit "generated_ppt/a.pptx", lit "abc")];
          ui := [] |})
    /\ length payload = 4.
Proof.
  destruct (download_link_shape (fun _ => true) (lit "generated_ppt/a.pptx")
              (lit "abc")
              {| prompts := []; files := [(lit "generated_ppt/a.pptx", lit "abc")];
                 ui := [] |} eq_refl eq_refl)
    as (payload & Hg & Hl & _).
  exists payload. split; [exact Hg | exact Hl].
Defined.
